(** * Macaulay2/c/compat.h: the platform-compatibility header

    The header is a list of preprocessing directives and three text
    lines that declare arrays.  Its meaning is what the C preprocessor
    does with it in a given build configuration: which macros it
    defines, which headers it asks for, and what it passes on to the
    compiler after macro replacement.  The directives are embedded as
    functions on the macro table that also write the events they cause,
    and the header is the list of its directives in source order. *)

From stdpp Require Import base strings gmap list finite.

Local Open Scope Z_scope.

(** ** Replacement lists and macro tables *)

(** Preprocessing tokens: those of the replacement lists of the header
    ([1], [0], [(-1)]), identifiers (keywords are identifiers to the
    preprocessor), and any other token, kept by its spelling. *)
Inductive token : Type :=
| TInt (n : Z)
| TLParen
| TRParen
| TMinus
| TIdent (name : string)
| TOther (spelling : string).

#[global] Instance token_eq_dec : EqDecision token.
Proof. solve_decision. Defined.

(** The macro table: macro name to replacement list.  A build
    configuration is the table the header is entered with (the
    compiler's predefined macros, the [-D] options, and what was defined
    before the header is read). *)
Abbreviation macro_table := (gmap string (list token)).

(** [#ifdef X] and [defined(X)]. *)
Definition defined (x : string) (m : macro_table) : bool :=
  match m !! x with
  | Some _ => true
  | None => false
  end.

(** Macro replacement of a text line.  An identifier that names a macro
    is replaced by the macro's replacement list, and the result is
    scanned again with that name hidden: a macro is not replaced inside
    its own replacement.  The tables of this file hold object-like
    macros only.  Every nested replacement hides one more macro of the
    table, so [S (size m)] rounds are enough (lemma
    [replace_tokens_fuel]). *)
Fixpoint replace_tokens (fuel : nat) (m : macro_table) (hide : list string)
    (ts : list token) : list token :=
  match fuel with
  | O => ts
  | S fuel' =>
      t ← ts;
      match t with
      | TIdent x =>
          if decide (x ∈ hide) then [t]
          else match m !! x with
               | Some body => replace_tokens fuel' m (x :: hide) body
               | None => [t]
               end
      | _ => [t]
      end
  end.

Definition macro_replace (m : macro_table) (ts : list token) : list token :=
  replace_tokens (S (size m)) m [] ts.

(** Value of a replacement list used as an integer constant: an integer
    literal, a negation, a parenthesised constant.  The constants of the
    header are 0, 1 and -1, far from the bounds of [int]. *)
Fixpoint eval_unary (fuel : nat) (ts : list token) : option (Z * list token) :=
  match fuel with
  | O => None
  | S fuel' =>
      match ts with
      | TInt n :: rest => Some (n, rest)
      | TMinus :: rest =>
          match eval_unary fuel' rest with
          | Some (v, rest') => Some (- v, rest')
          | None => None
          end
      | TLParen :: rest =>
          match eval_unary fuel' rest with
          | Some (v, TRParen :: rest') => Some (v, rest')
          | _ => None
          end
      | _ => None
      end
  end.

Definition cvalue (b : list token) : option Z :=
  match eval_unary (S (length b)) b with
  | Some (v, []) => Some v
  | _ => None
  end.

(** Value of a macro in a table. *)
Definition macro_value (m : macro_table) (x : string) : option Z :=
  m !! x ≫= cvalue.

(** ** Declarations *)

Inductive storage_class : Type := sc_extern | sc_static | sc_none.

Inductive ctype : Type :=
| ty_char
| ty_array (elem : ctype) (len : option N).

Record declaration : Type := Decl {
  decl_storage : storage_class;
  decl_type : ctype;
  decl_name : string;
  decl_init : option (list token)
}.

#[global] Instance storage_class_eq_dec : EqDecision storage_class.
Proof. solve_decision. Defined.
#[global] Instance ctype_eq_dec : EqDecision ctype.
Proof. solve_decision. Defined.
#[global] Instance declaration_eq_dec : EqDecision declaration.
Proof. solve_decision. Defined.

(** [extern char name[];] as a declaration, *)
Definition extern_char_array (name : string) : declaration :=
  Decl sc_extern (ty_array ty_char None) name None.

(** and as the text line the header has for it. *)
Definition extern_char_line (name : string) : list token :=
  [TIdent "extern"; TIdent "char"; TIdent name;
   TOther "["; TOther "]"; TOther ";"].

(** The words of lines 4-6 that macro replacement can reach. *)
Definition declaration_words : list string :=
  ["extern"; "char"; "posfmt"; "errfmt"; "errfmtnc"].

(** What the compiler makes of a text line after macro replacement.
    The lines recognised are those of the shape
    [extern|static]? char name ([] | [n])? ;
    with [name] an identifier that is no keyword; any other line is kept
    as text. *)
Definition c_keywords : list string :=
  ["auto"; "break"; "case"; "char"; "const"; "continue"; "default"; "do";
   "double"; "else"; "enum"; "extern"; "float"; "for"; "goto"; "if";
   "inline"; "int"; "long"; "register"; "restrict"; "return"; "short";
   "signed"; "sizeof"; "static"; "struct"; "switch"; "typedef"; "union";
   "unsigned"; "void"; "volatile"; "while"; "_Bool"; "_Complex";
   "_Imaginary"].

Definition is_word (w : string) (t : token) : bool :=
  match t with
  | TIdent x => bool_decide (x = w)
  | _ => false
  end.

Definition is_punct (p : string) (t : token) : bool :=
  match t with
  | TOther q => bool_decide (q = p)
  | _ => false
  end.

Definition parse_storage (ts : list token) : storage_class * list token :=
  match ts with
  | t :: rest =>
      if is_word "extern" t then (sc_extern, rest)
      else if is_word "static" t then (sc_static, rest)
      else (sc_none, ts)
  | [] => (sc_none, ts)
  end.

Definition parse_declarator (ts : list token) : option ctype :=
  match ts with
  | [s] => if is_punct ";" s then Some ty_char else None
  | [l; r; s] =>
      if is_punct "[" l && is_punct "]" r && is_punct ";" s
      then Some (ty_array ty_char None) else None
  | [l; TInt n; r; s] =>
      if is_punct "[" l && is_punct "]" r && is_punct ";" s && (0 <? n)
      then Some (ty_array ty_char (Some (Z.to_N n))) else None
  | _ => None
  end.

Definition parse_declaration (ts : list token) : option declaration :=
  let '(sc, rest) := parse_storage ts in
  match rest with
  | ty :: TIdent name :: rest' =>
      if is_word "char" ty && negb (bool_decide (name ∈ c_keywords))
      then (λ cty, Decl sc cty name None) <$> parse_declarator rest'
      else None
  | _ => None
  end.

(** A file-scope object declaration is a definition (it makes the
    translation unit provide the object) when it has an initializer, or,
    tentatively, when it has none and is not [extern]. *)
Definition is_definition (d : declaration) : bool :=
  match decl_init d, decl_storage d with
  | Some _, _ => true
  | None, sc_extern => false
  | None, _ => true
  end.

(** ** Events and directives *)

Inductive event : Type :=
| EDecl (d : declaration)
| EDefine (x : string) (b : list token)
| EInclude (h : string)
| EText (ts : list token).

#[global] Instance event_eq_dec : EqDecision event.
Proof. solve_decision. Defined.

Definition decls (t : list event) : list declaration :=
  omap (λ e, match e with EDecl d => Some d | _ => None end) t.

Definition includes (t : list event) : list string :=
  omap (λ e, match e with EInclude h => Some h | _ => None end) t.

(** The replacement lists the trace gives to macro [x], in order. *)
Definition defines_of (x : string) (t : list event) : list (list token) :=
  omap (λ e, match e with
             | EDefine y b => if decide (y = x) then Some b else None
             | _ => None
             end) t.

(** A text line, after macro replacement, as the compiler meets it. *)
Definition text_event (ts : list token) : event :=
  match parse_declaration ts with
  | Some d => EDecl d
  | None => EText ts
  end.

(** What lines 4-6 give in macro table [m]. *)
Definition decl_events (m : macro_table) : list event :=
  [ text_event (macro_replace m (extern_char_line "posfmt"));
    text_event (macro_replace m (extern_char_line "errfmt"));
    text_event (macro_replace m (extern_char_line "errfmtnc")) ].

(** The build configuration defines none of the words of lines 4-6 as a
    macro. *)
Definition plain_declarations (cfg : macro_table) : Prop :=
  Forall (λ w, defined w cfg = false) declaration_words.

(** [c] selects a piece of output. *)
Definition when {A : Type} (c : bool) (l : list A) : list A :=
  if c then l else [].

(** A directive transforms the macro table and writes events. *)
Definition directive : Type := macro_table → macro_table * list event.

Module PP.
Section Directives.

(** The text of the headers named in [#include <...>] is not part of
    the repository: what reading header [h] does to the macro table
    is a parameter. *)
Variable sys_header : string → macro_table → macro_table.

(** A text line (lines 4-6) is passed on after macro replacement in the
    table of that moment. *)
Definition declare (line : list token) : directive :=
  λ m, (m, [text_event (macro_replace m line)]).

(** [#define x b]: from here on [x] stands for [b].  When [x] was
    defined before with another replacement list, compilers report the
    redefinition and go on with the new list. *)
Definition define (x : string) (b : list token) : directive :=
  λ m, (<[x:=b]> m, [EDefine x b]).

(** [#include <h>]: the request is written to the trace, and the
    macro table becomes what the text of [h] leaves. *)
Definition include (h : string) : directive :=
  λ m, (sys_header h m, [EInclude h]).

Fixpoint exec (ds : list directive) : directive :=
  λ m, match ds with
       | [] => (m, [])
       | d :: ds' =>
           let '(m1, t1) := d m in
           let '(m2, t2) := exec ds' m1 in
           (m2, t1 ++ t2)
       end.

(** [#if c ... #else ... #endif] *)
Definition if_else (c : macro_table → bool) (ds1 ds2 : list directive)
  : directive :=
  λ m, if c m then exec ds1 m else exec ds2 m.

Definition if_ (c : macro_table → bool) (ds : list directive) : directive :=
  if_else c ds [].
Definition ifdef (x : string) (ds : list directive) : directive :=
  if_else (defined x) ds [].
Definition ifndef (x : string) (ds : list directive) : directive :=
  if_else (λ m, negb (defined x m)) ds [].
Definition ifdef_else (x : string) (ds1 ds2 : list directive) : directive :=
  if_else (defined x) ds1 ds2.
Definition ifndef_else (x : string) (ds1 ds2 : list directive) : directive :=
  if_else (λ m, negb (defined x m)) ds1 ds2.

(** *** The header, compat.h lines 4-23: declarations and macros *)
Definition compat_prelude : list directive :=
  [ declare (extern_char_line "posfmt");
    declare (extern_char_line "errfmt");
    declare (extern_char_line "errfmtnc");
    ifndef "TRUE" [ define "TRUE" [TInt 1] ];
    ifndef "FALSE" [ define "FALSE" [TInt 0] ];
    define "OKAY" [TInt 0];
    define "ERROR" [TLParen; TMinus; TInt 1; TRParen];
    if_ (λ m, defined "__ppc__" m && defined "__MACH__" m)
      [ define "__DARWIN__" [TInt 1] ] ].

(** *** compat.h lines 25-82: the included headers *)
Definition compat_includes : list directive :=
  [ include "gc/gc.h";
    ifndef_else "NO_CONFIG"
      [ ifdef "HAVE_UNISTD_H" [ include "unistd.h" ];
        ifdef "HAVE_SYSTYPES_H" [ include "sys/types.h" ];
        ifdef "HAVE_TYPES_H" [ include "types.h" ];
        ifdef "HAVE_SYS_STAT_H" [ include "sys/stat.h" ];
        ifdef "HAVE_STDLIB_H" [ include "stdlib.h" ];
        ifdef "HAVE_STRING_H" [ include "string.h" ];
        include "ctype.h";
        ifdef "HAVE_MEMORY_H" [ include "memory.h" ];
        include "stdio.h";
        include "fcntl.h";
        ifdef_else "__STDC__" [ include "stdarg.h" ] [ include "varargs.h" ] ]
      [ include "unistd.h";
        include "sys/types.h";
        include "sys/stat.h";
        include "stdlib.h";
        include "string.h";
        include "memory.h";
        include "ctype.h";
        include "stdio.h";
        include "fcntl.h";
        include "stdarg.h" ] ].

Definition compat_h : list directive := compat_prelude ++ compat_includes.

(** The macro table where the macro part of the header ends (line 23),
    before any header is read. *)
Definition prelude_table (cfg : macro_table) : macro_table :=
  (exec compat_prelude cfg).1.

(** The events of the whole header in build configuration [cfg]. *)
Definition trace (cfg : macro_table) : list event :=
  (exec compat_h cfg).2.

End Directives.
End PP.

(** ** Build configurations and system headers used in the statements *)

(** The macros the macro part of the header defines (lines 8-23). *)
Definition prelude_macros : list string :=
  ["TRUE"; "FALSE"; "OKAY"; "ERROR"; "__DARWIN__"].

(** The macros the include part of the header tests (lines 27-66). *)
Definition config_symbols : list string :=
  ["NO_CONFIG"; "HAVE_UNISTD_H"; "HAVE_SYSTYPES_H"; "HAVE_TYPES_H";
   "HAVE_SYS_STAT_H"; "HAVE_STDLIB_H"; "HAVE_STRING_H"; "HAVE_MEMORY_H";
   "__STDC__"].

(** The system headers neither define nor undefine the macros of the
    build configuration that the header tests. *)
Definition headers_transparent (sys : string → macro_table → macro_table) : Prop :=
  ∀ h m x, x ∈ config_symbols → defined x (sys h m) = defined x m.

(** Two macro tables answer the tests of the include part alike. *)
Definition agree (m m' : macro_table) : Prop :=
  ∀ x, x ∈ config_symbols → defined x m = defined x m'.

(** A directive that leaves the answers to those tests as they are and
    whose output depends on nothing else. *)
Definition config_driven (d : directive) : Prop :=
  (∀ m, agree (d m).1 m) ∧ (∀ m m', agree m m' → (d m).2 = (d m').2).

(** The headers of the [#else] branch (lines 70-79), in source order. *)
Definition no_config_headers : list string :=
  ["unistd.h"; "sys/types.h"; "sys/stat.h"; "stdlib.h"; "string.h";
   "memory.h"; "ctype.h"; "stdio.h"; "fcntl.h"; "stdarg.h"].

(** Every header named in lines 29-66, in source order. *)
Definition standard_headers : list string :=
  ["unistd.h"; "sys/types.h"; "types.h"; "sys/stat.h"; "stdlib.h"; "string.h";
   "ctype.h"; "memory.h"; "stdio.h"; "fcntl.h"; "stdarg.h"; "varargs.h"].

(** System headers that leave the macro table as it is. *)
Definition inert_headers : string → macro_table → macro_table := λ _ m, m.

(** A garbage-collector header that defines a [HAVE_] symbol of its own
    accord: not transparent. *)
Definition meddling_headers (h : string) (m : macro_table) : macro_table :=
  if decide (h = "gc/gc.h") then <["HAVE_UNISTD_H" := [TInt 1]]> m else m.

(** No macro defined at all. *)
Definition cfg_bare : macro_table := ∅.

(** A configured build on a standard C compiler that found every header:
    the configuration step defines the usual [HAVE_] symbols to 1. *)
Definition cfg_configured : macro_table :=
  list_to_map
    [("__STDC__", [TInt 1]); ("HAVE_UNISTD_H", [TInt 1]);
     ("HAVE_SYS_TYPES_H", [TInt 1]); ("HAVE_SYS_STAT_H", [TInt 1]);
     ("HAVE_STDLIB_H", [TInt 1]); ("HAVE_STRING_H", [TInt 1]);
     ("HAVE_MEMORY_H", [TInt 1])].

(** A build without configuration step, [-DNO_CONFIG], that still
    carries a [HAVE_] symbol. *)
Definition cfg_no_config : macro_table :=
  list_to_map [("NO_CONFIG", [TInt 1]); ("HAVE_TYPES_H", [TInt 1])].

(** A configuration that brings its own booleans. *)
Definition cfg_own_booleans : macro_table :=
  list_to_map [("TRUE", [TIdent "true"]); ("FALSE", [TIdent "false"])].

(** A PowerPC Mach compiler. *)
Definition cfg_ppc_mach : macro_table :=
  list_to_map [("__ppc__", [TInt 1]); ("__MACH__", [TInt 1]); ("__STDC__", [TInt 1])].

(** A build that renames posfmt: [-Dposfmt=errfmt]. *)
Definition cfg_renamed : macro_table :=
  list_to_map [("posfmt", [TIdent "errfmt"])].

(** A build that defines the storage-class word away: [-Dextern=]. *)
Definition cfg_no_extern : macro_table :=
  list_to_map [("extern", [])].

(** A build in which posfmt stands for OKAY, which the header defines
    later: [-Dposfmt=OKAY]. *)
Definition cfg_posfmt_okay : macro_table :=
  list_to_map [("posfmt", [TIdent "OKAY"])].

(** ** The header as its users meet it *)

(** The macro table the whole header leaves behind. *)
Definition final_table (sys : string → macro_table → macro_table)
    (cfg : macro_table) : macro_table :=
  (PP.exec (PP.compat_h sys) cfg).1.

(** The header has no include guard: a translation unit that reaches it
    twice reads all of it twice. *)
Definition trace_twice (sys : string → macro_table → macro_table)
    (cfg : macro_table) : list event :=
  (PP.exec (PP.compat_h sys ++ PP.compat_h sys) cfg).2.

(** Every macro the header tests (lines 8, 12, 20, 27-62). *)
Definition tested_symbols : list string :=
  ["TRUE"; "FALSE"; "__ppc__"; "__MACH__"] ++ config_symbols.

(** Two configurations define the same tested macros, with whatever
    replacement lists. *)
Definition same_tests (cfg cfg' : macro_table) : Prop :=
  ∀ x, x ∈ tested_symbols → defined x cfg = defined x cfg'.


(** A build that spells "not there" as 0: [-DHAVE_UNISTD_H=0]. *)
Definition cfg_zero_valued : macro_table :=
  list_to_map [("HAVE_UNISTD_H", [TInt 0]); ("TRUE", [TInt 0])].

(** The same tests answered alike, with empty replacement lists. *)
Definition cfg_empty_valued : macro_table :=
  list_to_map [("HAVE_UNISTD_H", []); ("TRUE", [])].

(** A compiler from before the standard (no __STDC__) on a system that
    has types.h only. *)
Definition cfg_types_only : macro_table :=
  list_to_map [("HAVE_TYPES_H", [TInt 1])].

Arguments macro_replace : simpl never.
Arguments text_event : simpl never.
Arguments decl_events : simpl never.

(** ** Text lines and macro replacement *)

Section TextFacts.

Implicit Types (m cfg : macro_table) (ts : list token) (hide : list string).

Lemma hide_bound m hide :
  NoDup hide → (∀ x, x ∈ hide → is_Some (m !! x)) →
  (length hide ≤ size m)%nat.
Proof.
  intros Hnd Hin. rewrite <- size_dom.
  change (size (dom m)) with (length (elements (dom m))).
  apply submseteq_length, NoDup_submseteq; [exact Hnd|].
  intros x Hx. apply elem_of_elements, elem_of_dom, Hin, Hx.
Qed.

(** The rounds of [macro_replace] are never used up: with more rounds
    than macros left to hide, the result is the same. *)
Lemma replace_tokens_fuel m n1 n2 hide ts :
  NoDup hide → (∀ x, x ∈ hide → is_Some (m !! x)) →
  (size m < n1 + length hide)%nat → (size m < n2 + length hide)%nat →
  replace_tokens n1 m hide ts = replace_tokens n2 m hide ts.
Proof.
  revert n2 hide ts.
  induction n1 as [|n1 IH]; intros n2 hide ts Hnd Hin H1 H2.
  { pose proof (hide_bound m hide Hnd Hin). simpl in H1. lia. }
  destruct n2 as [|n2].
  { pose proof (hide_bound m hide Hnd Hin). simpl in H2. lia. }
  simpl. apply list_bind_ext; [|reflexivity].
  intros [n| | | |x|q]; try reflexivity.
  destruct (decide (x ∈ hide)) as [|Hx]; [reflexivity|].
  destruct (m !! x) as [body|] eqn:Hm; [|reflexivity].
  apply IH.
  - apply NoDup_cons. split; assumption.
  - intros y [->|Hy]%elem_of_cons; [rewrite Hm; eauto | apply Hin, Hy].
  - simpl. lia.
  - simpl. lia.
Qed.

Lemma macro_replace_fuel m n ts :
  (size m < n)%nat → replace_tokens n m [] ts = macro_replace m ts.
Proof.
  intros Hn. unfold macro_replace. apply replace_tokens_fuel.
  - apply NoDup_nil_2.
  - intros x Hx. inversion Hx.
  - simpl. lia.
  - simpl. lia.
Qed.

(** A line none of whose identifiers is a macro is passed on as it is. *)
Lemma macro_replace_plain m ts :
  (∀ x, TIdent x ∈ ts → m !! x = None) → macro_replace m ts = ts.
Proof.
  unfold macro_replace. simpl. induction ts as [|t ts IH]; intros Hts.
  - reflexivity.
  - change ((t :: ts) ≫= ?f) with (f t ++ (ts ≫= f)).
    rewrite IH by (intros x Hx; apply Hts; right; exact Hx).
    destruct t as [n| | | |x|q]; try reflexivity.
    rewrite (Hts x) by left. reflexivity.
Qed.

Lemma text_event_cases ts :
  (∃ d, text_event ts = EDecl d) ∨ text_event ts = EText ts.
Proof.
  unfold text_event. destruct (parse_declaration ts) as [d|]; eauto.
Qed.

Lemma includes_decl_events m : includes (decl_events m) = [].
Proof.
  unfold decl_events.
  destruct (text_event_cases (macro_replace m (extern_char_line "posfmt")))
    as [[d1 ->]| ->],
    (text_event_cases (macro_replace m (extern_char_line "errfmt")))
    as [[d2 ->]| ->],
    (text_event_cases (macro_replace m (extern_char_line "errfmtnc")))
    as [[d3 ->]| ->]; reflexivity.
Qed.

Lemma defines_of_decl_events x m : defines_of x (decl_events m) = [].
Proof.
  unfold decl_events.
  destruct (text_event_cases (macro_replace m (extern_char_line "posfmt")))
    as [[d1 ->]| ->],
    (text_event_cases (macro_replace m (extern_char_line "errfmt")))
    as [[d2 ->]| ->],
    (text_event_cases (macro_replace m (extern_char_line "errfmtnc")))
    as [[d3 ->]| ->]; reflexivity.
Qed.

Lemma plain_declarations_lookup cfg w :
  plain_declarations cfg → w ∈ declaration_words → cfg !! w = None.
Proof.
  intros Hplain Hw. unfold plain_declarations in Hplain.
  rewrite Forall_forall in Hplain. specialize (Hplain w Hw).
  unfold defined in Hplain. destruct (cfg !! w); [discriminate | reflexivity].
Qed.

Lemma line_plain cfg name :
  plain_declarations cfg → name ∈ ["posfmt"; "errfmt"; "errfmtnc"] →
  macro_replace cfg (extern_char_line name) = extern_char_line name.
Proof.
  intros Hplain Hname. apply macro_replace_plain. intros x Hx.
  apply (plain_declarations_lookup cfg x Hplain).
  unfold extern_char_line in Hx. unfold declaration_words.
  repeat (apply elem_of_cons in Hx as [Hx|Hx];
          [first [discriminate Hx | injection Hx as ->]|]);
    [compute_done | compute_done | | inversion Hx].
  repeat (apply elem_of_cons in Hname as [->|Hname]; [compute_done|]).
  inversion Hname.
Qed.

(** In such a configuration lines 4-6 are the three declarations. *)
Lemma decl_events_plain cfg :
  plain_declarations cfg →
  decl_events cfg
  = EDecl <$> [extern_char_array "posfmt"; extern_char_array "errfmt";
               extern_char_array "errfmtnc"].
Proof.
  intros Hplain. unfold decl_events.
  rewrite !(line_plain cfg _ Hplain) by compute_done. reflexivity.
Qed.

End TextFacts.

(** ** Executing lists of directives *)

Section ExecFacts.

Implicit Types (m : macro_table) (d : directive) (ds : list directive).

Lemma exec_cons d ds m :
  PP.exec (d :: ds) m
  = ((PP.exec ds (d m).1).1, (d m).2 ++ (PP.exec ds (d m).1).2).
Proof.
  simpl. destruct (d m) as [m1 t1]. simpl.
  destruct (PP.exec ds m1) as [m2 t2]. reflexivity.
Qed.

Lemma exec_cons_trace d ds m :
  (PP.exec (d :: ds) m).2 = (d m).2 ++ (PP.exec ds (d m).1).2.
Proof. rewrite exec_cons. reflexivity. Qed.

Lemma exec_app ds1 ds2 m :
  PP.exec (ds1 ++ ds2) m
  = ((PP.exec ds2 (PP.exec ds1 m).1).1,
     (PP.exec ds1 m).2 ++ (PP.exec ds2 (PP.exec ds1 m).1).2).
Proof.
  revert m. induction ds1 as [|d ds1 IH]; intros m.
  - simpl. destruct (PP.exec ds2 m). reflexivity.
  - rewrite <- app_comm_cons, !exec_cons, IH. simpl.
    rewrite app_assoc. reflexivity.
Qed.

Lemma defined_insert_ne x y b m :
  y ≠ x → defined x (<[y:=b]> m) = defined x m.
Proof.
  intros Hne. unfold defined. rewrite lookup_insert_ne by exact Hne.
  reflexivity.
Qed.

Lemma defined_lookup_None x m : defined x m = false → m !! x = None.
Proof. unfold defined. destruct (m !! x); [discriminate | reflexivity]. Qed.

Lemma defined_default x b m :
  Some (default b (m !! x)) = if defined x m then m !! x else Some b.
Proof. unfold defined. destruct (m !! x); reflexivity. Qed.

Lemma fmap_when {A B} (f : A → B) (c : bool) (l : list A) :
  f <$> when c l = when c (f <$> l).
Proof. destruct c; reflexivity. Qed.

Lemma includes_app t1 t2 : includes (t1 ++ t2) = includes t1 ++ includes t2.
Proof. apply omap_app. Qed.

Lemma decls_app t1 t2 : decls (t1 ++ t2) = decls t1 ++ decls t2.
Proof. apply omap_app. Qed.

Lemma defines_of_app x t1 t2 :
  defines_of x (t1 ++ t2) = defines_of x t1 ++ defines_of x t2.
Proof. apply omap_app. Qed.

Lemma includes_fmap hs : includes (EInclude <$> hs) = hs.
Proof. induction hs as [|h hs IH]; [reflexivity | simpl; f_equal; exact IH]. Qed.

Lemma decls_fmap_include hs : decls (EInclude <$> hs) = [].
Proof. induction hs as [|h hs IH]; [reflexivity | exact IH]. Qed.

Lemma defines_of_fmap_include x hs : defines_of x (EInclude <$> hs) = [].
Proof. induction hs as [|h hs IH]; [reflexivity | exact IH]. Qed.

End ExecFacts.

(** ** The macro part of the header (lines 4-23) *)

Section PreludeFacts.

Implicit Types (cfg : macro_table).

(** The macro part, run symbolically: the table it leaves and the
    events it writes, as they depend on the configuration. *)
Lemma prelude_exec cfg :
  PP.exec PP.compat_prelude cfg
  = (let m1 := if defined "TRUE" cfg then cfg else <["TRUE":=[TInt 1]]> cfg in
     let m2 := if defined "FALSE" cfg then m1 else <["FALSE":=[TInt 0]]> m1 in
     let m3 := <["ERROR":=[TLParen; TMinus; TInt 1; TRParen]]>
                 (<["OKAY":=[TInt 0]]> m2) in
     if defined "__ppc__" cfg && defined "__MACH__" cfg
     then <["__DARWIN__":=[TInt 1]]> m3 else m3,
     decl_events cfg
     ++ when (negb (defined "TRUE" cfg)) [EDefine "TRUE" [TInt 1]]
     ++ when (negb (defined "FALSE" cfg)) [EDefine "FALSE" [TInt 0]]
     ++ [EDefine "OKAY" [TInt 0];
         EDefine "ERROR" [TLParen; TMinus; TInt 1; TRParen]]
     ++ when (defined "__ppc__" cfg && defined "__MACH__" cfg)
          [EDefine "__DARWIN__" [TInt 1]]).
Proof.
  unfold PP.compat_prelude, PP.ifndef, PP.if_, PP.if_else, PP.define, PP.declare.
  destruct (defined "TRUE" cfg) eqn:HT, (defined "FALSE" cfg) eqn:HF,
    (defined "__ppc__" cfg) eqn:HP, (defined "__MACH__" cfg) eqn:HM;
    repeat (cbn; rewrite ?defined_insert_ne by discriminate;
            rewrite ?HT, ?HF, ?HP, ?HM); reflexivity.
Qed.

(** The macro part touches no other macro. *)
Lemma prelude_table_other cfg x :
  x ∉ prelude_macros → PP.prelude_table cfg !! x = cfg !! x.
Proof.
  unfold prelude_macros. rewrite !not_elem_of_cons. intros (HT & HF & HO & HE & HD & _).
  unfold PP.prelude_table. rewrite prelude_exec. cbn [fst].
  destruct (defined "TRUE" cfg), (defined "FALSE" cfg),
    (defined "__ppc__" cfg && defined "__MACH__" cfg);
    rewrite ?lookup_insert_ne by congruence; reflexivity.
Qed.

Lemma prelude_table_agree cfg : agree (PP.prelude_table cfg) cfg.
Proof.
  intros x Hx. unfold defined. rewrite prelude_table_other; [reflexivity|].
  intros Hin. unfold config_symbols in Hx. unfold prelude_macros in Hin.
  repeat (apply elem_of_cons in Hx as [->|Hx];
          [repeat (apply elem_of_cons in Hin as [Hin|Hin]; [discriminate|]);
           inversion Hin|]).
  inversion Hx.
Qed.

Lemma prelude_lookup_TRUE cfg :
  PP.prelude_table cfg !! "TRUE" = Some (default [TInt 1] (cfg !! "TRUE")).
Proof.
  unfold PP.prelude_table. rewrite prelude_exec, defined_default. cbn [fst].
  destruct (defined "TRUE" cfg), (defined "FALSE" cfg),
    (defined "__ppc__" cfg && defined "__MACH__" cfg);
    rewrite ?lookup_insert_ne by discriminate;
    rewrite ?lookup_insert_eq; reflexivity.
Qed.

Lemma prelude_lookup_FALSE cfg :
  PP.prelude_table cfg !! "FALSE" = Some (default [TInt 0] (cfg !! "FALSE")).
Proof.
  unfold PP.prelude_table. rewrite prelude_exec, defined_default. cbn [fst].
  destruct (defined "TRUE" cfg), (defined "FALSE" cfg),
    (defined "__ppc__" cfg && defined "__MACH__" cfg);
    rewrite ?lookup_insert_ne by discriminate;
    rewrite ?lookup_insert_eq; reflexivity.
Qed.

Lemma prelude_lookup_OKAY cfg : PP.prelude_table cfg !! "OKAY" = Some [TInt 0].
Proof.
  unfold PP.prelude_table. rewrite prelude_exec. cbn [fst].
  destruct (defined "TRUE" cfg), (defined "FALSE" cfg),
    (defined "__ppc__" cfg && defined "__MACH__" cfg);
    rewrite ?lookup_insert_ne by discriminate;
    rewrite ?lookup_insert_eq; reflexivity.
Qed.

Lemma prelude_lookup_ERROR cfg :
  PP.prelude_table cfg !! "ERROR" = Some [TLParen; TMinus; TInt 1; TRParen].
Proof.
  unfold PP.prelude_table. rewrite prelude_exec. cbn [fst].
  destruct (defined "TRUE" cfg), (defined "FALSE" cfg),
    (defined "__ppc__" cfg && defined "__MACH__" cfg);
    rewrite ?lookup_insert_ne by discriminate;
    rewrite ?lookup_insert_eq; reflexivity.
Qed.

Lemma prelude_lookup_DARWIN cfg :
  PP.prelude_table cfg !! "__DARWIN__"
  = if defined "__ppc__" cfg && defined "__MACH__" cfg
    then Some [TInt 1] else cfg !! "__DARWIN__".
Proof.
  unfold PP.prelude_table. rewrite prelude_exec. cbn [fst].
  destruct (defined "TRUE" cfg), (defined "FALSE" cfg),
    (defined "__ppc__" cfg && defined "__MACH__" cfg);
    rewrite ?lookup_insert_ne by discriminate;
    rewrite ?lookup_insert_eq; reflexivity.
Qed.

Lemma prelude_trace_includes cfg : includes (PP.exec PP.compat_prelude cfg).2 = [].
Proof.
  rewrite prelude_exec. cbn [snd]. rewrite includes_app, includes_decl_events.
  destruct (defined "TRUE" cfg), (defined "FALSE" cfg),
    (defined "__ppc__" cfg && defined "__MACH__" cfg); reflexivity.
Qed.

Lemma prelude_trace_decls_any cfg :
  decls (PP.exec PP.compat_prelude cfg).2 = decls (decl_events cfg).
Proof.
  rewrite prelude_exec. cbn [snd]. rewrite decls_app.
  destruct (defined "TRUE" cfg), (defined "FALSE" cfg),
    (defined "__ppc__" cfg && defined "__MACH__" cfg);
    cbn; rewrite app_nil_r; reflexivity.
Qed.

Lemma prelude_trace_decls cfg :
  plain_declarations cfg →
  decls (PP.exec PP.compat_prelude cfg).2
  = [extern_char_array "posfmt"; extern_char_array "errfmt";
     extern_char_array "errfmtnc"].
Proof.
  intros Hplain. rewrite prelude_trace_decls_any, (decl_events_plain cfg Hplain).
  reflexivity.
Qed.

(** The definitions of macro [x] in the macro part. *)
Lemma prelude_defines_of x cfg :
  defines_of x (PP.exec PP.compat_prelude cfg).2
  = defines_of x
      (when (negb (defined "TRUE" cfg)) [EDefine "TRUE" [TInt 1]]
       ++ when (negb (defined "FALSE" cfg)) [EDefine "FALSE" [TInt 0]]
       ++ [EDefine "OKAY" [TInt 0];
           EDefine "ERROR" [TLParen; TMinus; TInt 1; TRParen]]
       ++ when (defined "__ppc__" cfg && defined "__MACH__" cfg)
            [EDefine "__DARWIN__" [TInt 1]]).
Proof.
  rewrite prelude_exec. cbn [snd].
  rewrite defines_of_app, defines_of_decl_events. reflexivity.
Qed.

End PreludeFacts.

(** ** The include part of the header (lines 25-82) *)

Section IncludeFacts.

Variable sys : string → macro_table → macro_table.

Implicit Types (m cfg : macro_table) (d : directive) (ds : list directive).

Lemma ifdef_include_trace x h m :
  (PP.ifdef x [PP.include sys h] m).2 = when (defined x m) [EInclude h].
Proof. unfold PP.ifdef, PP.if_else. destruct (defined x m); reflexivity. Qed.

Lemma ifdef_else_include_trace x h1 h2 m :
  (PP.ifdef_else x [PP.include sys h1] [PP.include sys h2] m).2
  = [EInclude (if defined x m then h1 else h2)].
Proof.
  unfold PP.ifdef_else, PP.if_else. destruct (defined x m); reflexivity.
Qed.

(** *** Whatever the system headers do *)

(** The include part asks for gc/gc.h first, and then either for the
    ten headers of the [#else] branch or for a selection of the headers
    of the configured branch in which ctype.h, stdio.h, fcntl.h and one
    of stdarg.h and varargs.h are always present. *)
Lemma compat_includes_shape m :
  ∃ hs, (PP.exec (PP.compat_includes sys) m).2 = EInclude <$> ("gc/gc.h" :: hs)
    ∧ (hs = no_config_headers
       ∨ ∃ b1 b2 b3 b4 b5 b6 b7 b8 : bool,
           hs = when b1 ["unistd.h"] ++ when b2 ["sys/types.h"]
                ++ when b3 ["types.h"] ++ when b4 ["sys/stat.h"]
                ++ when b5 ["stdlib.h"] ++ when b6 ["string.h"]
                ++ ["ctype.h"] ++ when b7 ["memory.h"]
                ++ ["stdio.h"; "fcntl.h"]
                ++ [if b8 then "stdarg.h" else "varargs.h"]).
Proof.
  unfold PP.compat_includes. rewrite !exec_cons_trace. cbn [fst snd PP.include].
  unfold PP.ifndef_else, PP.if_else.
  destruct (negb (defined "NO_CONFIG" (sys "gc/gc.h" m))).
  - rewrite !exec_cons_trace. cbn [fst snd PP.include PP.exec].
    rewrite !ifdef_include_trace, ifdef_else_include_trace.
    repeat match goal with
           | |- context [defined ?x ?M] => generalize (defined x M); intro
           end.
    eexists. split; [|right; do 8 eexists; reflexivity].
    rewrite !app_nil_r, !fmap_cons, !fmap_app, !fmap_when. reflexivity.
  - exists no_config_headers. split; [reflexivity | left; reflexivity].
Qed.

(** What every selection has in common. *)
Lemma compat_includes_headers m :
  ∃ hs, (PP.exec (PP.compat_includes sys) m).2 = EInclude <$> ("gc/gc.h" :: hs)
    ∧ hs ⊆ standard_headers
    ∧ "ctype.h" ∈ hs ∧ "stdio.h" ∈ hs ∧ "fcntl.h" ∈ hs
    ∧ ("stdarg.h" ∈ hs ∨ "varargs.h" ∈ hs).
Proof.
  destruct (compat_includes_shape m) as (hs & Hhs & Hshape).
  exists hs. split; [exact Hhs|]. clear Hhs.
  destruct Hshape as [->|(b1 & b2 & b3 & b4 & b5 & b6 & b7 & b8 & ->)].
  - compute_done.
  - revert b1 b2 b3 b4 b5 b6 b7 b8. compute_done.
Qed.

(** *** When the system headers keep the configuration *)

Hypothesis sys_transparent : headers_transparent sys.

Lemma agree_refl m : agree m m.
Proof. intros x _. reflexivity. Qed.

Lemma agree_trans m1 m2 m3 : agree m1 m2 → agree m2 m3 → agree m1 m3.
Proof. intros H12 H23 x Hx. rewrite (H12 x Hx). apply H23, Hx. Qed.

Lemma agree_sym m1 m2 : agree m1 m2 → agree m2 m1.
Proof. intros H x Hx. symmetry. apply H, Hx. Qed.

Lemma config_driven_include h : config_driven (PP.include sys h).
Proof.
  split.
  - intros m x Hx. simpl. apply sys_transparent, Hx.
  - intros m m' _. reflexivity.
Qed.

Lemma config_driven_exec ds :
  Forall config_driven ds → config_driven (PP.exec ds).
Proof.
  induction 1 as [|d ds [Hd1 Hd2] _ [IH1 IH2]].
  - split; [intros m; apply agree_refl | reflexivity].
  - split.
    + intros m. rewrite exec_cons. simpl.
      eapply agree_trans; [apply IH1 | apply Hd1].
    + intros m m' Hmm'. rewrite !exec_cons. simpl.
      rewrite (Hd2 m m' Hmm'). f_equal. apply IH2.
      eapply agree_trans; [apply Hd1|].
      eapply agree_trans; [apply Hmm'|]. apply agree_sym, Hd1.
Qed.

(** Every directive of such a list sees the configuration the list was
    entered with. *)
Lemma exec_trace_concat ds m :
  Forall config_driven ds →
  (PP.exec ds m).2 = concat (map (λ d : directive, (d m).2) ds).
Proof.
  intros Hds. revert m. induction Hds as [|d ds [Hd1 Hd2] Hds IH]; intros m.
  - reflexivity.
  - rewrite exec_cons. simpl. f_equal. rewrite IH.
    f_equal. apply map_ext_Forall.
    eapply Forall_impl; [exact Hds|].
    intros d' [_ Hd']. apply Hd', Hd1.
Qed.

Lemma config_driven_if_else c ds1 ds2 :
  (∀ m m', agree m m' → c m = c m') →
  Forall config_driven ds1 → Forall config_driven ds2 →
  config_driven (PP.if_else c ds1 ds2).
Proof.
  intros Hc H1%config_driven_exec H2%config_driven_exec.
  destruct H1 as [H1a H1b], H2 as [H2a H2b]. split.
  - intros m. unfold PP.if_else. destruct (c m); [apply H1a | apply H2a].
  - intros m m' Hmm'. unfold PP.if_else. rewrite <- (Hc m m' Hmm').
    destruct (c m); [apply H1b | apply H2b]; exact Hmm'.
Qed.

Lemma config_driven_ifdef x ds :
  x ∈ config_symbols → Forall config_driven ds →
  config_driven (PP.ifdef x ds).
Proof.
  intros Hx Hds. apply config_driven_if_else; [|exact Hds|constructor].
  intros m m' Hmm'. apply Hmm', Hx.
Qed.

Lemma config_driven_ifdef_else x ds1 ds2 :
  x ∈ config_symbols → Forall config_driven ds1 → Forall config_driven ds2 →
  config_driven (PP.ifdef_else x ds1 ds2).
Proof.
  intros Hx Hds1 Hds2. apply config_driven_if_else; [|exact Hds1|exact Hds2].
  intros m m' Hmm'. apply Hmm', Hx.
Qed.

Lemma config_driven_ifndef_else x ds1 ds2 :
  x ∈ config_symbols → Forall config_driven ds1 → Forall config_driven ds2 →
  config_driven (PP.ifndef_else x ds1 ds2).
Proof.
  intros Hx Hds1 Hds2. apply config_driven_if_else; [|exact Hds1|exact Hds2].
  intros m m' Hmm'. f_equal. apply Hmm', Hx.
Qed.

Ltac solve_config_driven :=
  repeat first
    [ apply Forall_nil_2
    | apply Forall_cons_2
    | apply config_driven_include
    | apply config_driven_ifdef
    | apply config_driven_ifdef_else
    | apply config_driven_ifndef_else
    | (unfold config_symbols; compute_done) ].

Lemma compat_includes_config_driven :
  Forall config_driven (PP.compat_includes sys).
Proof. unfold PP.compat_includes. solve_config_driven. Qed.

(** The include part, run symbolically on the table it is entered
    with. *)
Lemma compat_includes_trace m :
  (PP.exec (PP.compat_includes sys) m).2
  = EInclude <$>
    "gc/gc.h" ::
    (if defined "NO_CONFIG" m
     then no_config_headers
     else when (defined "HAVE_UNISTD_H" m) ["unistd.h"]
          ++ when (defined "HAVE_SYSTYPES_H" m) ["sys/types.h"]
          ++ when (defined "HAVE_TYPES_H" m) ["types.h"]
          ++ when (defined "HAVE_SYS_STAT_H" m) ["sys/stat.h"]
          ++ when (defined "HAVE_STDLIB_H" m) ["stdlib.h"]
          ++ when (defined "HAVE_STRING_H" m) ["string.h"]
          ++ ["ctype.h"]
          ++ when (defined "HAVE_MEMORY_H" m) ["memory.h"]
          ++ ["stdio.h"; "fcntl.h"]
          ++ [if defined "__STDC__" m then "stdarg.h" else "varargs.h"]).
Proof.
  rewrite exec_trace_concat by apply compat_includes_config_driven.
  unfold PP.compat_includes. cbn [map concat].
  rewrite app_nil_r. change ((PP.include sys "gc/gc.h" m).2) with [EInclude "gc/gc.h"].
  cbn [app]. rewrite fmap_cons. f_equal.
  unfold PP.ifndef_else, PP.if_else.
  destruct (defined "NO_CONFIG" m); cbn [negb].
  - reflexivity.
  - rewrite exec_trace_concat by solve_config_driven.
    cbn [map concat]. rewrite !ifdef_include_trace, ifdef_else_include_trace.
    rewrite app_nil_r.
    repeat first [rewrite fmap_app | rewrite fmap_cons | rewrite fmap_when].
    reflexivity.
Qed.

End IncludeFacts.

(** ** The whole header *)

Section HeaderFacts.

Variable sys : string → macro_table → macro_table.

Implicit Types (cfg : macro_table).

Lemma trace_split cfg :
  PP.trace sys cfg
  = (PP.exec PP.compat_prelude cfg).2
    ++ (PP.exec (PP.compat_includes sys) (PP.prelude_table cfg)).2.
Proof. unfold PP.trace, PP.compat_h. rewrite exec_app. reflexivity. Qed.

Lemma trace_decls_any cfg :
  decls (PP.trace sys cfg) = decls (decl_events cfg).
Proof.
  rewrite trace_split, decls_app, prelude_trace_decls_any.
  destruct (compat_includes_shape sys (PP.prelude_table cfg)) as (hs & -> & _).
  rewrite decls_fmap_include, app_nil_r. reflexivity.
Qed.

Lemma trace_decls cfg :
  plain_declarations cfg →
  decls (PP.trace sys cfg)
  = [extern_char_array "posfmt"; extern_char_array "errfmt";
     extern_char_array "errfmtnc"].
Proof.
  intros Hplain. rewrite trace_decls_any, (decl_events_plain cfg Hplain).
  reflexivity.
Qed.

Lemma trace_defines_of x cfg :
  defines_of x (PP.trace sys cfg)
  = defines_of x (PP.exec PP.compat_prelude cfg).2.
Proof.
  rewrite trace_split, defines_of_app.
  destruct (compat_includes_shape sys (PP.prelude_table cfg)) as (hs & -> & _).
  rewrite defines_of_fmap_include, app_nil_r. reflexivity.
Qed.

Lemma trace_includes_any cfg :
  includes (PP.trace sys cfg)
  = includes (PP.exec (PP.compat_includes sys) (PP.prelude_table cfg)).2.
Proof. rewrite trace_split, includes_app, prelude_trace_includes. reflexivity. Qed.

(** The headers the whole header asks for, as they depend on the build
    configuration, when the system headers keep it. *)
Lemma trace_includes cfg :
  headers_transparent sys →
  includes (PP.trace sys cfg)
  = "gc/gc.h" ::
    (if defined "NO_CONFIG" cfg
     then no_config_headers
     else when (defined "HAVE_UNISTD_H" cfg) ["unistd.h"]
          ++ when (defined "HAVE_SYSTYPES_H" cfg) ["sys/types.h"]
          ++ when (defined "HAVE_TYPES_H" cfg) ["types.h"]
          ++ when (defined "HAVE_SYS_STAT_H" cfg) ["sys/stat.h"]
          ++ when (defined "HAVE_STDLIB_H" cfg) ["stdlib.h"]
          ++ when (defined "HAVE_STRING_H" cfg) ["string.h"]
          ++ ["ctype.h"]
          ++ when (defined "HAVE_MEMORY_H" cfg) ["memory.h"]
          ++ ["stdio.h"; "fcntl.h"]
          ++ [if defined "__STDC__" cfg then "stdarg.h" else "varargs.h"]).
Proof.
  intros Hsys. rewrite trace_includes_any.
  pose proof (config_driven_exec _ (compat_includes_config_driven sys Hsys))
    as [_ Hsame].
  rewrite (Hsame _ cfg (prelude_table_agree cfg)).
  rewrite (compat_includes_trace sys Hsys), includes_fmap. reflexivity.
Qed.

End HeaderFacts.

(** ** The header run on concrete configurations *)

Example cvalue_constants :
  cvalue [TInt 1] = Some 1
  ∧ cvalue [TInt 0] = Some 0
  ∧ cvalue [TLParen; TMinus; TInt 1; TRParen] = Some (-1)
  ∧ cvalue [TLParen; TMinus; TInt 1] = None
  ∧ cvalue [TIdent "true"] = None.
Proof. repeat split; reflexivity. Qed.

Example trace_bare :
  PP.trace inert_headers cfg_bare
  = [EDecl (extern_char_array "posfmt"); EDecl (extern_char_array "errfmt");
     EDecl (extern_char_array "errfmtnc");
     EDefine "TRUE" [TInt 1]; EDefine "FALSE" [TInt 0];
     EDefine "OKAY" [TInt 0];
     EDefine "ERROR" [TLParen; TMinus; TInt 1; TRParen];
     EInclude "gc/gc.h"; EInclude "ctype.h"; EInclude "stdio.h";
     EInclude "fcntl.h"; EInclude "varargs.h"].
Proof. vm_compute. reflexivity. Qed.

Example includes_configured :
  includes (PP.trace inert_headers cfg_configured)
  = ["gc/gc.h"; "unistd.h"; "sys/stat.h"; "stdlib.h"; "string.h"; "ctype.h";
     "memory.h"; "stdio.h"; "fcntl.h"; "stdarg.h"].
Proof. vm_compute. reflexivity. Qed.

Example own_booleans_kept :
  PP.prelude_table cfg_own_booleans !! "TRUE" = Some [TIdent "true"]
  ∧ PP.prelude_table cfg_own_booleans !! "FALSE" = Some [TIdent "false"]
  ∧ defines_of "TRUE" (PP.trace inert_headers cfg_own_booleans) = []
  ∧ defines_of "FALSE" (PP.trace inert_headers cfg_own_booleans) = [].
Proof. repeat split; vm_compute; reflexivity. Qed.

Example darwin_on_ppc_mach :
  PP.prelude_table cfg_ppc_mach !! "__DARWIN__" = Some [TInt 1]
  ∧ PP.prelude_table cfg_configured !! "__DARWIN__" = None.
Proof. split; vm_compute; reflexivity. Qed.

(** Why the statements about the guarded headers assume transparent
    system headers: a gc/gc.h that defines HAVE_UNISTD_H makes the
    header ask for unistd.h in a configuration that does not define
    it. *)
Example meddling_gc_header :
  defined "HAVE_UNISTD_H" cfg_bare = false
  ∧ "unistd.h" ∈ includes (PP.trace meddling_headers cfg_bare)
  ∧ ¬ headers_transparent meddling_headers.
Proof.
  split; [reflexivity|]. split; [compute_done|].
  intros H. specialize (H "gc/gc.h" ∅ "HAVE_UNISTD_H").
  discriminate H. compute_done.
Qed.

(** * Properties of the header *)

Section ClaimHelpers.

Lemma elem_of_defines_of x b (t : list event) :
  b ∈ defines_of x t ↔ EDefine x b ∈ t.
Proof.
  unfold defines_of. rewrite list_elem_of_omap. split.
  - intros (e & He & Hb). destruct e as [d|y b'|h|ts]; try discriminate.
    destruct (decide (y = x)) as [->|]; [|discriminate].
    injection Hb as ->. exact He.
  - intros He. exists (EDefine x b). split; [exact He|].
    destruct (decide (x = x)); [reflexivity | congruence].
Qed.

Lemma gc_header_first sys (cfg : macro_table) :
  ∃ hs, includes (PP.trace sys cfg) = "gc/gc.h" :: hs ∧ "gc/gc.h" ∉ hs.
Proof.
  rewrite trace_includes_any.
  destruct (compat_includes_headers sys (PP.prelude_table cfg))
    as (hs & -> & Hsub & _).
  exists hs. rewrite includes_fmap. split; [reflexivity|].
  intros Hin%Hsub. revert Hin. compute_done.
Qed.

End ClaimHelpers.

(** C1.  In a build configuration that does not define NO_CONFIG, each of
    unistd.h, sys/stat.h, stdlib.h, string.h and memory.h is included if
    and only if its feature-detection macro (HAVE_UNISTD_H,
    HAVE_SYS_STAT_H, HAVE_STDLIB_H, HAVE_STRING_H, HAVE_MEMORY_H) is
    defined in that configuration.  The system headers read on the way
    are taken to leave the tested macros as the configuration set them. *)
Theorem C1_feature_guarded_headers sys (cfg : macro_table) :
  headers_transparent sys →
  defined "NO_CONFIG" cfg = false →
  ("unistd.h" ∈ includes (PP.trace sys cfg) ↔ defined "HAVE_UNISTD_H" cfg = true)
  ∧ ("sys/stat.h" ∈ includes (PP.trace sys cfg) ↔ defined "HAVE_SYS_STAT_H" cfg = true)
  ∧ ("stdlib.h" ∈ includes (PP.trace sys cfg) ↔ defined "HAVE_STDLIB_H" cfg = true)
  ∧ ("string.h" ∈ includes (PP.trace sys cfg) ↔ defined "HAVE_STRING_H" cfg = true)
  ∧ ("memory.h" ∈ includes (PP.trace sys cfg) ↔ defined "HAVE_MEMORY_H" cfg = true).
Proof.
  intros Hsys Hnc. rewrite (trace_includes sys cfg Hsys), Hnc.
  generalize (defined "HAVE_UNISTD_H" cfg), (defined "HAVE_SYSTYPES_H" cfg),
    (defined "HAVE_TYPES_H" cfg), (defined "HAVE_SYS_STAT_H" cfg),
    (defined "HAVE_STDLIB_H" cfg), (defined "HAVE_STRING_H" cfg),
    (defined "HAVE_MEMORY_H" cfg), (defined "__STDC__" cfg).
  compute_done.
Qed.

(** C1 at the configured build and at the bare one, with system headers
    that leave the macro table alone. *)
Lemma C1_witness :
  headers_transparent inert_headers
  ∧ defined "NO_CONFIG" cfg_configured = false
  ∧ ("unistd.h" ∈ includes (PP.trace inert_headers cfg_configured)
     ↔ defined "HAVE_UNISTD_H" cfg_configured = true)
  ∧ ("memory.h" ∈ includes (PP.trace inert_headers cfg_bare)
     ↔ defined "HAVE_MEMORY_H" cfg_bare = true).
Proof.
  split; [intros h m x _; reflexivity|].
  split; [vm_compute; reflexivity|].
  split.
  - apply (C1_feature_guarded_headers inert_headers cfg_configured).
    + intros h m x _. reflexivity.
    + vm_compute. reflexivity.
  - apply (C1_feature_guarded_headers inert_headers cfg_bare).
    + intros h m x _. reflexivity.
    + vm_compute. reflexivity.
Defined.

(** What the code does for sys/types.h: the guard of line 33 tests
    HAVE_SYSTYPES_H, a name without the underscore between SYS and
    TYPES. *)
Lemma sys_types_guard sys (cfg : macro_table) :
  headers_transparent sys →
  defined "NO_CONFIG" cfg = false →
  ("sys/types.h" ∈ includes (PP.trace sys cfg)
   ↔ defined "HAVE_SYSTYPES_H" cfg = true).
Proof.
  intros Hsys Hnc. rewrite (trace_includes sys cfg Hsys), Hnc.
  generalize (defined "HAVE_UNISTD_H" cfg), (defined "HAVE_SYSTYPES_H" cfg),
    (defined "HAVE_TYPES_H" cfg), (defined "HAVE_SYS_STAT_H" cfg),
    (defined "HAVE_STDLIB_H" cfg), (defined "HAVE_STRING_H" cfg),
    (defined "HAVE_MEMORY_H" cfg), (defined "__STDC__" cfg).
  compute_done.
Qed.

(** C2.  The claim is that, without NO_CONFIG, sys/types.h is included
    exactly when HAVE_SYS_TYPES_H is defined.  In the configured build
    [cfg_configured], which defines HAVE_SYS_TYPES_H next to the other
    [HAVE_] symbols and not NO_CONFIG, the header does not ask for
    sys/types.h, while it asks for sys/stat.h under HAVE_SYS_STAT_H. *)
Theorem C2_sys_types_not_included :
  defined "NO_CONFIG" cfg_configured = false
  ∧ defined "HAVE_SYS_TYPES_H" cfg_configured = true
  ∧ ("sys/types.h" ∉ includes (PP.trace inert_headers cfg_configured))
  ∧ defined "HAVE_SYS_STAT_H" cfg_configured = true
  ∧ "sys/stat.h" ∈ includes (PP.trace inert_headers cfg_configured).
Proof. compute_done. Qed.

(** C3, as stated, fails: the inclusion of gc/gc.h depends on no macro.
    It is asked for in the configuration that defines no macro at all,
    and there is no configuration in which it is not asked for. *)
Lemma C3_counterexample :
  "gc/gc.h" ∈ includes (PP.trace inert_headers cfg_bare)
  ∧ ¬ (∃ sys (cfg : macro_table), "gc/gc.h" ∉ includes (PP.trace sys cfg)).
Proof.
  split; [compute_done|].
  intros (sys & cfg & Hnot). apply Hnot.
  destruct (gc_header_first sys cfg) as (hs & -> & _). apply list_elem_of_here.
Qed.

(** C3, amended.  In every build configuration, and whatever the system
    headers do, gc/gc.h is included unconditionally: it is the first
    header the file asks for, and it is asked for once. *)
Theorem C3_gc_header_unconditional sys (cfg : macro_table) :
  ∃ hs, includes (PP.trace sys cfg) = "gc/gc.h" :: hs ∧ "gc/gc.h" ∉ hs.
Proof. apply gc_header_first. Qed.

(** C4.  In every build configuration the header defines OKAY as [0] and
    ERROR as [(-1)]: each by one [#define], which no condition guards;
    where the macro part ends their values are 0 and -1, and these
    differ. *)
Theorem C4_status_sentinels sys (cfg : macro_table) :
  defines_of "OKAY" (PP.trace sys cfg) = [[TInt 0]]
  ∧ defines_of "ERROR" (PP.trace sys cfg) = [[TLParen; TMinus; TInt 1; TRParen]]
  ∧ macro_value (PP.prelude_table cfg) "OKAY" = Some 0
  ∧ macro_value (PP.prelude_table cfg) "ERROR" = Some (-1)
  ∧ macro_value (PP.prelude_table cfg) "OKAY"
    ≠ macro_value (PP.prelude_table cfg) "ERROR".
Proof.
  unfold macro_value.
  rewrite !trace_defines_of, !prelude_defines_of, prelude_lookup_OKAY,
    prelude_lookup_ERROR.
  generalize (defined "TRUE" cfg), (defined "FALSE" cfg),
    (defined "__ppc__" cfg), (defined "__MACH__" cfg).
  compute_done.
Qed.

(** C5.  The header defines __DARWIN__, as [1], if and only if the build
    configuration defines both __ppc__ and __MACH__; in a configuration
    that lacks either of them the header leaves __DARWIN__ as it found
    it (undefined, when the configuration did not define it). *)
Theorem C5_darwin_macro sys (cfg : macro_table) :
  (EDefine "__DARWIN__" [TInt 1] ∈ PP.trace sys cfg
   ↔ defined "__ppc__" cfg = true ∧ defined "__MACH__" cfg = true)
  ∧ defines_of "__DARWIN__" (PP.trace sys cfg)
    = when (defined "__ppc__" cfg && defined "__MACH__" cfg) [[TInt 1]]
  ∧ cvalue [TInt 1] = Some 1
  ∧ PP.prelude_table cfg !! "__DARWIN__"
    = if defined "__ppc__" cfg && defined "__MACH__" cfg
      then Some [TInt 1] else cfg !! "__DARWIN__".
Proof.
  rewrite <- elem_of_defines_of, !trace_defines_of, !prelude_defines_of,
    prelude_lookup_DARWIN.
  split; [|split; [|split; reflexivity]].
  - generalize (defined "TRUE" cfg), (defined "FALSE" cfg),
      (defined "__ppc__" cfg), (defined "__MACH__" cfg).
    compute_done.
  - generalize (defined "TRUE" cfg), (defined "FALSE" cfg),
      (defined "__ppc__" cfg), (defined "__MACH__" cfg).
    compute_done.
Qed.

(** C6, as stated, fails.  In the configuration that defines no macro at
    all, where no feature-detection macro can have enabled anything, the
    effect of the header is not only macro definitions: it declares
    posfmt, and it includes gc/gc.h, ctype.h, stdio.h, fcntl.h and
    varargs.h. *)
Lemma C6_counterexample :
  EDecl (extern_char_array "posfmt") ∈ PP.trace inert_headers cfg_bare
  ∧ includes (PP.trace inert_headers cfg_bare)
    = ["gc/gc.h"; "ctype.h"; "stdio.h"; "fcntl.h"; "varargs.h"]
  ∧ ¬ (∀ e, e ∈ PP.trace inert_headers cfg_bare → ∃ x b, e = EDefine x b).
Proof.
  split; [compute_done|]. split; [reflexivity|].
  intros Hall.
  destruct (Hall (EInclude "gc/gc.h")) as (x & b & Heq); [compute_done|].
  discriminate Heq.
Qed.

(** C6, amended.  In every build configuration that defines none of the
    words of lines 4-6 (extern, char, posfmt, errfmt, errfmtnc) as a
    macro, and with system headers that leave the tested macros as the
    configuration set them, the whole effect of the header is, in this
    order: the declarations of posfmt, errfmt and errfmtnc, none of them
    a definition; the definitions of TRUE and of FALSE, each only when
    the configuration does not define the macro, and of OKAY and ERROR;
    the definition of __DARWIN__ under its condition; the inclusion of
    gc/gc.h, which no condition guards; and the block of standard
    headers: with NO_CONFIG the ten headers of the [#else] branch, and
    without it unistd.h, sys/types.h, types.h, sys/stat.h, stdlib.h,
    string.h and memory.h each under its own macro, ctype.h, stdio.h and
    fcntl.h under none, and stdarg.h or varargs.h by __STDC__. *)
Theorem C6_header_effect sys (cfg : macro_table) :
  headers_transparent sys →
  plain_declarations cfg →
  PP.trace sys cfg
  = (EDecl <$> [extern_char_array "posfmt"; extern_char_array "errfmt";
                extern_char_array "errfmtnc"])
    ++ when (negb (defined "TRUE" cfg)) [EDefine "TRUE" [TInt 1]]
    ++ when (negb (defined "FALSE" cfg)) [EDefine "FALSE" [TInt 0]]
    ++ [EDefine "OKAY" [TInt 0];
        EDefine "ERROR" [TLParen; TMinus; TInt 1; TRParen]]
    ++ when (defined "__ppc__" cfg && defined "__MACH__" cfg)
         [EDefine "__DARWIN__" [TInt 1]]
    ++ (EInclude <$>
        "gc/gc.h" ::
        (if defined "NO_CONFIG" cfg
         then no_config_headers
         else when (defined "HAVE_UNISTD_H" cfg) ["unistd.h"]
              ++ when (defined "HAVE_SYSTYPES_H" cfg) ["sys/types.h"]
              ++ when (defined "HAVE_TYPES_H" cfg) ["types.h"]
              ++ when (defined "HAVE_SYS_STAT_H" cfg) ["sys/stat.h"]
              ++ when (defined "HAVE_STDLIB_H" cfg) ["stdlib.h"]
              ++ when (defined "HAVE_STRING_H" cfg) ["string.h"]
              ++ ["ctype.h"]
              ++ when (defined "HAVE_MEMORY_H" cfg) ["memory.h"]
              ++ ["stdio.h"; "fcntl.h"]
              ++ [if defined "__STDC__" cfg then "stdarg.h" else "varargs.h"]))
  ∧ Forall (λ d, is_definition d = false) (decls (PP.trace sys cfg)).
Proof.
  intros Hsys Hplain. split.
  - rewrite trace_split, prelude_exec. cbn [snd].
    rewrite (decl_events_plain cfg Hplain).
    rewrite <- !app_assoc. do 5 f_equal.
    pose proof (config_driven_exec _ (compat_includes_config_driven sys Hsys))
      as [_ Hsame].
    rewrite (Hsame _ cfg (prelude_table_agree cfg)).
    apply (compat_includes_trace sys Hsys).
  - rewrite (trace_decls sys cfg Hplain). repeat constructor.
Qed.

(** C6 at the configured build: the whole trace. *)
Lemma C6_witness :
  headers_transparent inert_headers
  ∧ plain_declarations cfg_configured
  ∧ PP.trace inert_headers cfg_configured
    = (EDecl <$> [extern_char_array "posfmt"; extern_char_array "errfmt";
                  extern_char_array "errfmtnc"])
      ++ [EDefine "TRUE" [TInt 1]; EDefine "FALSE" [TInt 0];
          EDefine "OKAY" [TInt 0];
          EDefine "ERROR" [TLParen; TMinus; TInt 1; TRParen]]
      ++ (EInclude <$> ["gc/gc.h"; "unistd.h"; "sys/stat.h"; "stdlib.h";
                        "string.h"; "ctype.h"; "memory.h"; "stdio.h";
                        "fcntl.h"; "stdarg.h"]).
Proof.
  split; [intros h m x _; reflexivity|].
  split; [repeat constructor|].
  apply (C6_header_effect inert_headers cfg_configured).
  - intros h m x _. reflexivity.
  - repeat constructor.
Defined.

(** C7, as stated, fails.  Lines 4-6 are text lines, and the
    preprocessor replaces macros in them.  In the build [-Dposfmt=errfmt]
    the header declares errfmt twice and posfmt not at all; in the build
    [-Dextern=] the three lines are tentative definitions, for which the
    translation unit provides storage. *)
Lemma C7_counterexample :
  decl_name <$> decls (PP.trace inert_headers cfg_renamed)
  = ["errfmt"; "errfmt"; "errfmtnc"]
  ∧ ("posfmt" ∉ decl_name <$> decls (PP.trace inert_headers cfg_renamed))
  ∧ decl_name <$> decls (PP.trace inert_headers cfg_no_extern)
    = ["posfmt"; "errfmt"; "errfmtnc"]
  ∧ Forall (λ d, decl_storage d = sc_none ∧ is_definition d = true)
      (decls (PP.trace inert_headers cfg_no_extern)).
Proof.
  split; [reflexivity|]. split; [compute_done|]. split; [reflexivity|].
  repeat constructor.
Qed.

(** C7, amended.  In every build configuration that defines none of the
    words extern, char, posfmt, errfmt and errfmtnc as a macro, and
    whatever the system headers do, the declarations of the header are
    those of posfmt, errfmt and errfmtnc, in this order: each [extern],
    an array of [char] of unstated length, without initializer; none of
    them is a definition, so the header reserves no storage for them. *)
Theorem C7_extern_declarations sys (cfg : macro_table) :
  plain_declarations cfg →
  decls (PP.trace sys cfg)
  = [extern_char_array "posfmt"; extern_char_array "errfmt";
     extern_char_array "errfmtnc"]
  ∧ decl_name <$> decls (PP.trace sys cfg) = ["posfmt"; "errfmt"; "errfmtnc"]
  ∧ Forall (λ d, decl_storage d = sc_extern
                 ∧ decl_type d = ty_array ty_char None
                 ∧ decl_init d = None
                 ∧ is_definition d = false)
      (decls (PP.trace sys cfg)).
Proof.
  intros Hplain. rewrite (trace_decls sys cfg Hplain).
  split; [reflexivity|]. split; [reflexivity|].
  repeat constructor.
Qed.

(** C7 at the configured build. *)
Lemma C7_witness :
  plain_declarations cfg_configured
  ∧ decl_name <$> decls (PP.trace inert_headers cfg_configured)
    = ["posfmt"; "errfmt"; "errfmtnc"].
Proof.
  split; [repeat constructor|].
  apply (C7_extern_declarations inert_headers cfg_configured).
  repeat constructor.
Defined.

(** C8.  In a build configuration that defines NO_CONFIG the header asks
    for gc/gc.h and then for unistd.h, sys/types.h, sys/stat.h,
    stdlib.h, string.h, memory.h, ctype.h, stdio.h, fcntl.h and
    stdarg.h, whatever [HAVE_] macros the configuration defines: the
    list does not depend on the configuration.  gc/gc.h, read before the
    test, is taken not to undefine NO_CONFIG. *)
Theorem C8_no_config_headers sys (cfg : macro_table) :
  (∀ m : macro_table, defined "NO_CONFIG" m = true →
       defined "NO_CONFIG" (sys "gc/gc.h" m) = true) →
  defined "NO_CONFIG" cfg = true →
  includes (PP.trace sys cfg) = "gc/gc.h" :: no_config_headers.
Proof.
  intros Hgc Hnc. rewrite trace_includes_any.
  unfold PP.compat_includes. rewrite !exec_cons_trace. cbn [fst snd PP.include].
  unfold PP.ifndef_else, PP.if_else.
  rewrite Hgc; [reflexivity|].
  rewrite (prelude_table_agree cfg) by compute_done. exact Hnc.
Qed.

(** C8 at a build with NO_CONFIG that also defines HAVE_TYPES_H:
    types.h is not asked for. *)
Lemma C8_witness :
  (∀ m : macro_table, defined "NO_CONFIG" m = true →
       defined "NO_CONFIG" (inert_headers "gc/gc.h" m) = true)
  ∧ defined "NO_CONFIG" cfg_no_config = true
  ∧ defined "HAVE_TYPES_H" cfg_no_config = true
  ∧ includes (PP.trace inert_headers cfg_no_config)
    = "gc/gc.h" :: no_config_headers.
Proof.
  split; [intros m Hm; exact Hm|].
  split; [reflexivity|]. split; [reflexivity|].
  apply (C8_no_config_headers inert_headers cfg_no_config).
  - intros m Hm. exact Hm.
  - reflexivity.
Defined.

(** C9.  TRUE and FALSE are defined by the header, as [1] and [0], only
    in a configuration that does not define them already; a definition
    the configuration brings is the one in force where the macro part
    ends.  OKAY and ERROR are defined in every configuration, whatever
    it held for them. *)
Theorem C9_guarded_booleans sys (cfg : macro_table) :
  defines_of "TRUE" (PP.trace sys cfg) = when (negb (defined "TRUE" cfg)) [[TInt 1]]
  ∧ defines_of "FALSE" (PP.trace sys cfg) = when (negb (defined "FALSE" cfg)) [[TInt 0]]
  ∧ PP.prelude_table cfg !! "TRUE" = Some (default [TInt 1] (cfg !! "TRUE"))
  ∧ PP.prelude_table cfg !! "FALSE" = Some (default [TInt 0] (cfg !! "FALSE"))
  ∧ defines_of "OKAY" (PP.trace sys cfg) = [[TInt 0]]
  ∧ defines_of "ERROR" (PP.trace sys cfg) = [[TLParen; TMinus; TInt 1; TRParen]]
  ∧ PP.prelude_table cfg !! "OKAY" = Some [TInt 0]
  ∧ PP.prelude_table cfg !! "ERROR" = Some [TLParen; TMinus; TInt 1; TRParen].
Proof.
  rewrite !trace_defines_of, !prelude_defines_of, prelude_lookup_TRUE,
    prelude_lookup_FALSE, prelude_lookup_OKAY, prelude_lookup_ERROR.
  generalize (defined "TRUE" cfg), (defined "FALSE" cfg),
    (defined "__ppc__" cfg), (defined "__MACH__" cfg).
  intros [] [] [] []; repeat split; reflexivity.
Qed.

(** C10.  In a build configuration that defines neither TRUE nor FALSE,
    so that the four constants are the header's, OKAY has the value of
    FALSE, 0, and ERROR, -1, differs from TRUE, 1, and from FALSE: the
    value that means success as a status is the value that means false
    as a boolean. *)
Theorem C10_status_polarity (cfg : macro_table) :
  defined "TRUE" cfg = false →
  defined "FALSE" cfg = false →
  macro_value (PP.prelude_table cfg) "TRUE" = Some 1
  ∧ macro_value (PP.prelude_table cfg) "FALSE" = Some 0
  ∧ macro_value (PP.prelude_table cfg) "OKAY" = Some 0
  ∧ macro_value (PP.prelude_table cfg) "ERROR" = Some (-1)
  ∧ macro_value (PP.prelude_table cfg) "OKAY"
    = macro_value (PP.prelude_table cfg) "FALSE"
  ∧ macro_value (PP.prelude_table cfg) "ERROR"
    ≠ macro_value (PP.prelude_table cfg) "TRUE"
  ∧ macro_value (PP.prelude_table cfg) "ERROR"
    ≠ macro_value (PP.prelude_table cfg) "FALSE"
  ∧ macro_value (PP.prelude_table cfg) "OKAY"
    ≠ macro_value (PP.prelude_table cfg) "TRUE".
Proof.
  intros HT%defined_lookup_None HF%defined_lookup_None. unfold macro_value.
  rewrite prelude_lookup_TRUE, prelude_lookup_FALSE, prelude_lookup_OKAY,
    prelude_lookup_ERROR, HT, HF.
  compute_done.
Qed.

(** C10 at a PowerPC Mach compiler, which defines neither boolean. *)
Lemma C10_witness :
  defined "TRUE" cfg_ppc_mach = false
  ∧ defined "FALSE" cfg_ppc_mach = false
  ∧ macro_value (PP.prelude_table cfg_ppc_mach) "OKAY"
    = macro_value (PP.prelude_table cfg_ppc_mach) "FALSE"
  ∧ macro_value (PP.prelude_table cfg_ppc_mach) "ERROR"
    ≠ macro_value (PP.prelude_table cfg_ppc_mach) "TRUE".
Proof.
  split; [reflexivity|]. split; [reflexivity|].
  destruct (C10_status_polarity cfg_ppc_mach) as (_ & _ & _ & _ & H1 & H2 & _);
    [reflexivity | reflexivity |].
  split; [exact H1 | exact H2].
Defined.

(** * Further properties of the header *)

Section MoreFacts.

Variable sys : string → macro_table → macro_table.

Implicit Types (m cfg : macro_table) (d : directive) (ds : list directive).

(** The headers asked for, whatever the system headers do. *)
Lemma includes_shape cfg :
  ∃ hs, includes (PP.trace sys cfg) = "gc/gc.h" :: hs
    ∧ (hs = no_config_headers
       ∨ ∃ b1 b2 b3 b4 b5 b6 b7 b8 : bool,
           hs = when b1 ["unistd.h"] ++ when b2 ["sys/types.h"]
                ++ when b3 ["types.h"] ++ when b4 ["sys/stat.h"]
                ++ when b5 ["stdlib.h"] ++ when b6 ["string.h"]
                ++ ["ctype.h"] ++ when b7 ["memory.h"]
                ++ ["stdio.h"; "fcntl.h"]
                ++ [if b8 then "stdarg.h" else "varargs.h"]).
Proof.
  rewrite trace_includes_any.
  destruct (compat_includes_shape sys (PP.prelude_table cfg)) as (hs & -> & Hhs).
  exists hs. rewrite includes_fmap. split; [reflexivity | exact Hhs].
Qed.

End MoreFacts.

(** X1.  Whatever the configuration defines and whatever the system
    headers do, the header asks for exactly one of stdarg.h and
    varargs.h (lines 62-66 and 79). *)
Theorem X1_one_variadic_header sys (cfg : macro_table) :
  ("stdarg.h" ∈ includes (PP.trace sys cfg)
   ∧ "varargs.h" ∉ includes (PP.trace sys cfg))
  ∨ (("stdarg.h" ∉ includes (PP.trace sys cfg))
     ∧ "varargs.h" ∈ includes (PP.trace sys cfg)).
Proof.
  destruct (includes_shape sys cfg)
    as (hs & -> & [->|(b1 & b2 & b3 & b4 & b5 & b6 & b7 & b8 & ->)]).
  - compute_done.
  - revert b1 b2 b3 b4 b5 b6 b7 b8. compute_done.
Qed.

(** X2.  ctype.h, stdio.h and fcntl.h are asked for in every
    configuration, with or without NO_CONFIG, whatever the system headers
    do: no macro guards them (lines 53, 59, 60 and 76-78). *)
Theorem X2_unguarded_headers sys (cfg : macro_table) :
  "ctype.h" ∈ includes (PP.trace sys cfg)
  ∧ "stdio.h" ∈ includes (PP.trace sys cfg)
  ∧ "fcntl.h" ∈ includes (PP.trace sys cfg).
Proof.
  destruct (includes_shape sys cfg)
    as (hs & -> & [->|(b1 & b2 & b3 & b4 & b5 & b6 & b7 & b8 & ->)]).
  - compute_done.
  - revert b1 b2 b3 b4 b5 b6 b7 b8. compute_done.
Qed.

(** X3.  One reading of the header asks for no header twice, in any
    configuration and whatever the system headers do. *)
Theorem X3_no_header_twice sys (cfg : macro_table) :
  NoDup (includes (PP.trace sys cfg)).
Proof.
  destruct (includes_shape sys cfg)
    as (hs & -> & [->|(b1 & b2 & b3 & b4 & b5 & b6 & b7 & b8 & ->)]).
  - compute_done.
  - revert b1 b2 b3 b4 b5 b6 b7 b8. compute_done.
Qed.

(** X4.  What the header declares and which macros it defines does not
    depend on the system headers: every declaration and every [#define]
    of the file stands before its first [#include] (line 25). *)
Theorem X4_macros_before_includes sys1 sys2 (cfg : macro_table) (x : string) :
  decls (PP.trace sys1 cfg) = decls (PP.trace sys2 cfg)
  ∧ defines_of x (PP.trace sys1 cfg) = defines_of x (PP.trace sys2 cfg)
  ∧ ∃ hs, PP.trace sys1 cfg
          = (PP.exec PP.compat_prelude cfg).2 ++ (EInclude <$> hs).
Proof.
  rewrite !trace_decls_any, !trace_defines_of. split; [reflexivity|].
  split; [reflexivity|].
  rewrite trace_split.
  destruct (compat_includes_shape sys1 (PP.prelude_table cfg)) as (hs & -> & _).
  eexists. reflexivity.
Qed.

(** X5.  types.h is asked for exactly in the configurations that define
    HAVE_TYPES_H and not NO_CONFIG (lines 37-39): the NO_CONFIG branch
    never asks for it. *)
Theorem X5_types_header sys (cfg : macro_table) :
  headers_transparent sys →
  ("types.h" ∈ includes (PP.trace sys cfg)
   ↔ defined "NO_CONFIG" cfg = false ∧ defined "HAVE_TYPES_H" cfg = true).
Proof.
  intros Hsys. rewrite (trace_includes sys cfg Hsys).
  generalize (defined "NO_CONFIG" cfg),
    (defined "HAVE_UNISTD_H" cfg), (defined "HAVE_SYSTYPES_H" cfg),
    (defined "HAVE_TYPES_H" cfg), (defined "HAVE_SYS_STAT_H" cfg),
    (defined "HAVE_STDLIB_H" cfg), (defined "HAVE_STRING_H" cfg),
    (defined "HAVE_MEMORY_H" cfg), (defined "__STDC__" cfg).
  compute_done.
Qed.

(** X5 where types.h is the only header found, and in a NO_CONFIG build
    that defines HAVE_TYPES_H all the same. *)
Lemma X5_witness :
  headers_transparent inert_headers
  ∧ "types.h" ∈ includes (PP.trace inert_headers cfg_types_only)
  ∧ "types.h" ∉ includes (PP.trace inert_headers cfg_no_config).
Proof.
  split; [intros h m x _; reflexivity|]. split.
  - apply (X5_types_header inert_headers cfg_types_only).
    + intros h m x _. reflexivity.
    + split; reflexivity.
  - intros Hin.
    apply (X5_types_header inert_headers cfg_no_config) in Hin as [Hnc _].
    + discriminate Hnc.
    + intros h m x _. reflexivity.
Defined.

(** X6.  stdarg.h is asked for when NO_CONFIG or __STDC__ is defined, and
    varargs.h when neither is (lines 62-66 and 79). *)
Theorem X6_variadic_header_choice sys (cfg : macro_table) :
  headers_transparent sys →
  ("stdarg.h" ∈ includes (PP.trace sys cfg)
   ↔ defined "NO_CONFIG" cfg = true ∨ defined "__STDC__" cfg = true)
  ∧ ("varargs.h" ∈ includes (PP.trace sys cfg)
     ↔ defined "NO_CONFIG" cfg = false ∧ defined "__STDC__" cfg = false).
Proof.
  intros Hsys. rewrite (trace_includes sys cfg Hsys).
  generalize (defined "NO_CONFIG" cfg),
    (defined "HAVE_UNISTD_H" cfg), (defined "HAVE_SYSTYPES_H" cfg),
    (defined "HAVE_TYPES_H" cfg), (defined "HAVE_SYS_STAT_H" cfg),
    (defined "HAVE_STDLIB_H" cfg), (defined "HAVE_STRING_H" cfg),
    (defined "HAVE_MEMORY_H" cfg), (defined "__STDC__" cfg).
  compute_done.
Qed.

(** X6 at the bare configuration (varargs.h) and at the NO_CONFIG build,
    which does not define __STDC__ (stdarg.h). *)
Lemma X6_witness :
  headers_transparent inert_headers
  ∧ "varargs.h" ∈ includes (PP.trace inert_headers cfg_bare)
  ∧ defined "__STDC__" cfg_no_config = false
  ∧ "stdarg.h" ∈ includes (PP.trace inert_headers cfg_no_config).
Proof.
  split; [intros h m x _; reflexivity|]. split; [|split; [reflexivity|]].
  - apply (X6_variadic_header_choice inert_headers cfg_bare).
    + intros h m x _. reflexivity.
    + split; reflexivity.
  - apply (X6_variadic_header_choice inert_headers cfg_no_config).
    + intros h m x _. reflexivity.
    + left. reflexivity.
Defined.



Section TableFacts.

Variable sys : string → macro_table → macro_table.

Implicit Types (m cfg : macro_table) (d : directive) (ds : list directive).

Lemma final_table_split cfg :
  final_table sys cfg
  = (PP.exec (PP.compat_includes sys) (PP.prelude_table cfg)).1.
Proof. unfold final_table, PP.compat_h. rewrite exec_app. reflexivity. Qed.

(** A property of macro tables that every system header passes on is
    passed on by the include part. *)
Lemma exec_preserves (P : macro_table → Prop) ds :
  Forall (λ d : directive, ∀ m, P m → P (d m).1) ds →
  ∀ m, P m → P (PP.exec ds m).1.
Proof.
  induction 1 as [|d ds Hd _ IH]; intros m Hm.
  - exact Hm.
  - rewrite exec_cons. simpl. apply IH, Hd, Hm.
Qed.

Lemma if_else_preserves (P : macro_table → Prop) c ds1 ds2 :
  Forall (λ d : directive, ∀ m, P m → P (d m).1) ds1 →
  Forall (λ d : directive, ∀ m, P m → P (d m).1) ds2 →
  ∀ m, P m → P (PP.if_else c ds1 ds2 m).1.
Proof.
  intros H1 H2 m Hm. unfold PP.if_else.
  destruct (c m); apply exec_preserves; assumption.
Qed.

Lemma compat_includes_preserves (P : macro_table → Prop) :
  (∀ h m, P m → P (sys h m)) →
  ∀ m, P m → P (PP.exec (PP.compat_includes sys) m).1.
Proof.
  intros Hsys. apply exec_preserves. unfold PP.compat_includes.
  repeat first
    [ apply Forall_nil_2
    | apply Forall_cons_2
    | (intros m Hm; exact (Hsys _ m Hm))
    | apply if_else_preserves ].
Qed.

Lemma final_table_lookup cfg x :
  (∀ h m, sys h m !! x = m !! x) →
  final_table sys cfg !! x = PP.prelude_table cfg !! x.
Proof.
  intros Hsys. rewrite final_table_split.
  apply (compat_includes_preserves (λ m, m !! x = PP.prelude_table cfg !! x));
    [|reflexivity].
  intros h m Hm. rewrite Hsys. exact Hm.
Qed.

Lemma prelude_keeps_defined cfg x :
  defined x cfg = true → defined x (PP.prelude_table cfg) = true.
Proof.
  intros Hx. unfold PP.prelude_table. rewrite prelude_exec. cbn [fst].
  assert (Hins : ∀ y b m, defined x m = true → defined x (<[y:=b]> m) = true).
  { intros y b m Hm. unfold defined in *. rewrite lookup_insert.
    destruct (decide (y = x)); [reflexivity | exact Hm]. }
  destruct (defined "TRUE" cfg), (defined "FALSE" cfg),
    (defined "__ppc__" cfg && defined "__MACH__" cfg);
    repeat apply Hins; exact Hx.
Qed.

Lemma final_table_agree cfg :
  headers_transparent sys → agree (final_table sys cfg) cfg.
Proof.
  intros Hsys. rewrite final_table_split.
  eapply agree_trans; [|apply prelude_table_agree].
  apply (config_driven_exec _ (compat_includes_config_driven sys Hsys)).
Qed.

(** The whole trace, as it depends on the configuration. *)
Lemma trace_explicit cfg :
  headers_transparent sys →
  PP.trace sys cfg
  = (PP.exec PP.compat_prelude cfg).2
    ++ (EInclude <$>
        "gc/gc.h" ::
        (if defined "NO_CONFIG" cfg
         then no_config_headers
         else when (defined "HAVE_UNISTD_H" cfg) ["unistd.h"]
              ++ when (defined "HAVE_SYSTYPES_H" cfg) ["sys/types.h"]
              ++ when (defined "HAVE_TYPES_H" cfg) ["types.h"]
              ++ when (defined "HAVE_SYS_STAT_H" cfg) ["sys/stat.h"]
              ++ when (defined "HAVE_STDLIB_H" cfg) ["stdlib.h"]
              ++ when (defined "HAVE_STRING_H" cfg) ["string.h"]
              ++ ["ctype.h"]
              ++ when (defined "HAVE_MEMORY_H" cfg) ["memory.h"]
              ++ ["stdio.h"; "fcntl.h"]
              ++ [if defined "__STDC__" cfg then "stdarg.h" else "varargs.h"])).
Proof.
  intros Hsys. rewrite trace_split. f_equal.
  pose proof (config_driven_exec _ (compat_includes_config_driven sys Hsys))
    as [_ Hsame].
  rewrite (Hsame _ cfg (prelude_table_agree cfg)).
  apply (compat_includes_trace sys Hsys).
Qed.

Lemma includes_agree m m' :
  headers_transparent sys → agree m m' →
  includes (PP.trace sys m) = includes (PP.trace sys m').
Proof.
  intros Hsys Hmm'. rewrite !(trace_includes sys _ Hsys).
  rewrite !(Hmm' _) by compute_done. reflexivity.
Qed.

Lemma trace_twice_split cfg :
  trace_twice sys cfg = PP.trace sys cfg ++ PP.trace sys (final_table sys cfg).
Proof. unfold trace_twice. rewrite exec_app. reflexivity. Qed.

Lemma when_mono_sublist {A} (c c' : bool) (l : list A) :
  (c = true → c' = true) → sublist (when c l) (when c' l).
Proof.
  destruct c; simpl.
  - intros H. rewrite H by reflexivity. reflexivity.
  - intros _. apply sublist_nil_l.
Qed.

End TableFacts.

(** X8.  In a configured build, defining more macros never takes a header
    away and never reorders the headers: if every macro of [cfg] is
    defined in [cfg'], neither defines NO_CONFIG and they agree on
    __STDC__, then the headers asked for under [cfg] are, in order, among
    those asked for under [cfg']. *)
Theorem X8_more_macros_more_headers sys (cfg cfg' : macro_table) :
  headers_transparent sys →
  defined "NO_CONFIG" cfg' = false →
  defined "__STDC__" cfg = defined "__STDC__" cfg' →
  (∀ x, defined x cfg = true → defined x cfg' = true) →
  sublist (includes (PP.trace sys cfg)) (includes (PP.trace sys cfg')).
Proof.
  intros Hsys Hnc' Hstdc Hsub.
  assert (Hnc : defined "NO_CONFIG" cfg = false).
  { destruct (defined "NO_CONFIG" cfg) eqn:E; [|reflexivity].
    rewrite (Hsub _ E) in Hnc'. discriminate Hnc'. }
  rewrite !(trace_includes sys _ Hsys), Hnc, Hnc', Hstdc.
  apply sublist_skip.
  repeat first
    [ apply sublist_app
    | apply when_mono_sublist, Hsub
    | reflexivity ].
Qed.

(** X8 from a build that found types.h only to one that also found
    unistd.h, both on a compiler from before the standard. *)
Lemma X8_witness :
  sublist (includes (PP.trace inert_headers cfg_types_only))
    (includes (PP.trace inert_headers
                 (<["HAVE_UNISTD_H" := [TInt 1]]> cfg_types_only))).
Proof.
  apply (X8_more_macros_more_headers inert_headers).
  - intros h m x _. reflexivity.
  - reflexivity.
  - reflexivity.
  - intros x. unfold defined. rewrite lookup_insert.
    destruct (decide ("HAVE_UNISTD_H" = x)); [reflexivity | intros H; exact H].
Defined.

(** X9.  The conditionals of the header test only whether macros are
    defined, never what they stand for.  With system headers that leave
    the tested macros alone, two configurations that define the same
    ones of the thirteen tested macros get the same macro definitions
    and the same headers: their traces differ at most in what lines 4-6
    give under macro replacement.  A configuration that defines
    HAVE_UNISTD_H as 0 is given unistd.h. *)
Theorem X9_only_definedness_matters sys (cfg cfg' : macro_table) :
  headers_transparent sys →
  same_tests cfg cfg' →
  includes (PP.trace sys cfg) = includes (PP.trace sys cfg')
  ∧ (∀ x, defines_of x (PP.trace sys cfg) = defines_of x (PP.trace sys cfg'))
  ∧ ∃ rest, PP.trace sys cfg = decl_events cfg ++ rest
            ∧ PP.trace sys cfg' = decl_events cfg' ++ rest.
Proof.
  intros Hsys Hsame.
  assert (Hrest : ∃ rest, PP.trace sys cfg = decl_events cfg ++ rest
                          ∧ PP.trace sys cfg' = decl_events cfg' ++ rest).
  { rewrite !(trace_explicit sys _ Hsys), !prelude_exec. cbn [snd].
    unfold same_tests in Hsame. rewrite !(Hsame _) by compute_done.
    rewrite <- !(app_assoc (decl_events _)). eexists. split; reflexivity. }
  destruct Hrest as (rest & Hcfg & Hcfg'). rewrite Hcfg, Hcfg'.
  split; [|split].
  - rewrite !includes_app, !includes_decl_events. reflexivity.
  - intros x. rewrite !defines_of_app, !defines_of_decl_events. reflexivity.
  - exists rest. split; reflexivity.
Qed.

(** X9 at two builds that define HAVE_UNISTD_H and TRUE, one as 0 and
    one as nothing: both are given unistd.h and neither a definition of
    TRUE. *)
Lemma X9_witness :
  same_tests cfg_zero_valued cfg_empty_valued
  ∧ includes (PP.trace inert_headers cfg_zero_valued)
    = includes (PP.trace inert_headers cfg_empty_valued)
  ∧ "unistd.h" ∈ includes (PP.trace inert_headers cfg_zero_valued)
  ∧ defines_of "TRUE" (PP.trace inert_headers cfg_zero_valued) = [].
Proof.
  assert (Hsame : same_tests cfg_zero_valued cfg_empty_valued).
  { intros x Hx. unfold tested_symbols, config_symbols in Hx.
    repeat (apply elem_of_cons in Hx as [->|Hx]; [reflexivity|]).
    inversion Hx. }
  split; [exact Hsame|]. split; [|split; [compute_done | reflexivity]].
  apply (X9_only_definedness_matters inert_headers _ _).
  - intros h m x _. reflexivity.
  - exact Hsame.
Defined.

(** X10.  The header has no include guard.  A translation unit that
    reads it twice asks twice for every header (it is the system headers
    that must guard themselves); the second reading asks for the same
    headers as the first. *)
Theorem X10_read_twice sys (cfg : macro_table) :
  headers_transparent sys →
  includes (trace_twice sys cfg)
  = includes (PP.trace sys cfg) ++ includes (PP.trace sys cfg).
Proof.
  intros Hsys. rewrite trace_twice_split, includes_app.
  rewrite (includes_agree sys _ cfg Hsys (final_table_agree sys cfg Hsys)).
  reflexivity.
Qed.

Lemma X10_witness :
  includes (trace_twice inert_headers cfg_bare)
  = ["gc/gc.h"; "ctype.h"; "stdio.h"; "fcntl.h"; "varargs.h";
     "gc/gc.h"; "ctype.h"; "stdio.h"; "fcntl.h"; "varargs.h"].
Proof.
  apply (X10_read_twice inert_headers cfg_bare).
  intros h m x _. reflexivity.
Defined.

(** X11.  The header touches five macros only.  Any other macro that no
    system header touches stands, after the whole header, for what the
    configuration made it stand for, and is undefined if it was. *)
Theorem X11_header_frame sys (cfg : macro_table) (x : string) :
  (∀ h m, sys h m !! x = m !! x) →
  x ∉ prelude_macros →
  final_table sys cfg !! x = cfg !! x.
Proof.
  intros Hsys Hx.
  rewrite (final_table_lookup sys cfg x Hsys). apply prelude_table_other, Hx.
Qed.

Lemma X11_witness :
  final_table inert_headers cfg_configured !! "HAVE_UNISTD_H" = Some [TInt 1]
  ∧ final_table inert_headers cfg_configured !! "NO_CONFIG" = None.
Proof.
  split.
  - apply (X11_header_frame inert_headers cfg_configured "HAVE_UNISTD_H").
    + intros h m. reflexivity.
    + compute_done.
  - apply (X11_header_frame inert_headers cfg_configured "NO_CONFIG").
    + intros h m. reflexivity.
    + compute_done.
Defined.

(** X12.  After the whole header OKAY is 0 and ERROR is -1, whatever the
    configuration held for them, as long as no system header read after
    line 18 gives them another meaning. *)
Theorem X12_status_values_at_end sys (cfg : macro_table) :
  (∀ h m, sys h m !! "OKAY" = m !! "OKAY") →
  (∀ h m, sys h m !! "ERROR" = m !! "ERROR") →
  macro_value (final_table sys cfg) "OKAY" = Some 0
  ∧ macro_value (final_table sys cfg) "ERROR" = Some (-1).
Proof.
  intros HO HE. unfold macro_value.
  rewrite (final_table_lookup sys cfg _ HO), (final_table_lookup sys cfg _ HE).
  rewrite prelude_lookup_OKAY, prelude_lookup_ERROR. split; reflexivity.
Qed.

Lemma X12_witness :
  macro_value (final_table inert_headers (<["ERROR" := [TInt 7]]> cfg_bare)) "OKAY"
  = Some 0
  ∧ macro_value (final_table inert_headers (<["ERROR" := [TInt 7]]> cfg_bare)) "ERROR"
    = Some (-1).
Proof.
  apply (X12_status_values_at_end inert_headers).
  - intros h m. reflexivity.
  - intros h m. reflexivity.
Defined.

(** X13.  The header never undefines a macro: it has no [#undef].  A
    macro defined on entry that no system header undefines is defined
    after the whole header. *)
Theorem X13_never_undefines sys (cfg : macro_table) (x : string) :
  (∀ h m, defined x m = true → defined x (sys h m) = true) →
  defined x cfg = true →
  defined x (final_table sys cfg) = true.
Proof.
  intros Hsys Hx. rewrite final_table_split.
  apply (compat_includes_preserves sys (λ m, defined x m = true) Hsys).
  apply prelude_keeps_defined, Hx.
Qed.

Lemma X13_witness :
  defined "TRUE" (final_table inert_headers cfg_own_booleans) = true
  ∧ defined "__STDC__" (final_table inert_headers cfg_ppc_mach) = true.
Proof.
  split.
  - apply (X13_never_undefines inert_headers cfg_own_booleans "TRUE").
    + intros h m Hm. exact Hm.
    + reflexivity.
  - apply (X13_never_undefines inert_headers cfg_ppc_mach "__STDC__").
    + intros h m Hm. exact Hm.
    + reflexivity.
Defined.

Section RereadFacts.

Implicit Types (cfg : macro_table).

Lemma prelude_defined_TRUE cfg : defined "TRUE" (PP.prelude_table cfg) = true.
Proof. unfold defined. rewrite prelude_lookup_TRUE. reflexivity. Qed.

Lemma prelude_defined_FALSE cfg : defined "FALSE" (PP.prelude_table cfg) = true.
Proof. unfold defined. rewrite prelude_lookup_FALSE. reflexivity. Qed.

Lemma prelude_defined_other cfg x :
  x ∉ prelude_macros → defined x (PP.prelude_table cfg) = defined x cfg.
Proof. intros Hx. unfold defined. rewrite prelude_table_other by exact Hx. reflexivity. Qed.

Lemma prelude_defines_booleans cfg :
  defines_of "TRUE" (PP.exec PP.compat_prelude cfg).2
  = when (negb (defined "TRUE" cfg)) [[TInt 1]]
  ∧ defines_of "FALSE" (PP.exec PP.compat_prelude cfg).2
    = when (negb (defined "FALSE" cfg)) [[TInt 0]]
  ∧ defines_of "OKAY" (PP.exec PP.compat_prelude cfg).2 = [[TInt 0]].
Proof.
  rewrite !prelude_defines_of.
  destruct (defined "TRUE" cfg), (defined "FALSE" cfg),
    (defined "__ppc__" cfg && defined "__MACH__" cfg);
    repeat split; reflexivity.
Qed.

End RereadFacts.

(** X14.  Reading the macro part again changes no macro: run on the
    table it left, lines 4-23 leave that table as it is, define neither
    TRUE nor FALSE, and give OKAY, ERROR and (on a PowerPC Mach compiler)
    __DARWIN__ the replacement lists they already have; besides these
    definitions the second reading gives only what lines 4-6 give in
    that table. *)
Theorem X14_macro_part_idempotent (cfg : macro_table) :
  (PP.exec PP.compat_prelude (PP.prelude_table cfg)).1 = PP.prelude_table cfg
  ∧ (PP.exec PP.compat_prelude (PP.prelude_table cfg)).2
    = decl_events (PP.prelude_table cfg)
      ++ [EDefine "OKAY" [TInt 0];
          EDefine "ERROR" [TLParen; TMinus; TInt 1; TRParen]]
      ++ when (defined "__ppc__" cfg && defined "__MACH__" cfg)
           [EDefine "__DARWIN__" [TInt 1]].
Proof.
  rewrite prelude_exec.
  rewrite prelude_defined_TRUE, prelude_defined_FALSE.
  rewrite !prelude_defined_other by compute_done.
  cbn zeta. cbn [negb when app fst snd]. split; [|reflexivity].
  pose proof (prelude_lookup_OKAY cfg) as HO.
  pose proof (prelude_lookup_ERROR cfg) as HE.
  pose proof (prelude_lookup_DARWIN cfg) as HD.
  rewrite (insert_id _ _ _ HO), (insert_id _ _ _ HE).
  destruct (defined "__ppc__" cfg && defined "__MACH__" cfg); [|reflexivity].
  apply insert_id, HD.
Qed.

(** X15.  Read twice, the header still defines TRUE and FALSE at most
    once each, as long as no system header undefines them in between,
    while OKAY is defined by both readings. *)
Theorem X15_booleans_defined_once sys (cfg : macro_table) :
  (∀ h m, defined "TRUE" m = true → defined "TRUE" (sys h m) = true) →
  (∀ h m, defined "FALSE" m = true → defined "FALSE" (sys h m) = true) →
  defines_of "TRUE" (trace_twice sys cfg) = defines_of "TRUE" (PP.trace sys cfg)
  ∧ defines_of "FALSE" (trace_twice sys cfg) = defines_of "FALSE" (PP.trace sys cfg)
  ∧ defines_of "OKAY" (trace_twice sys cfg) = [[TInt 0]; [TInt 0]].
Proof.
  intros HT HF. rewrite trace_twice_split, !defines_of_app, !trace_defines_of.
  destruct (prelude_defines_booleans (final_table sys cfg)) as (-> & -> & ->).
  destruct (prelude_defines_booleans cfg) as (_ & _ & ->).
  assert (defined "TRUE" (final_table sys cfg) = true) as ->.
  { rewrite final_table_split.
    apply (compat_includes_preserves sys (λ m, defined "TRUE" m = true) HT).
    apply prelude_defined_TRUE. }
  assert (defined "FALSE" (final_table sys cfg) = true) as ->.
  { rewrite final_table_split.
    apply (compat_includes_preserves sys (λ m, defined "FALSE" m = true) HF).
    apply prelude_defined_FALSE. }
  cbn [negb when]. rewrite !app_nil_r. repeat split; reflexivity.
Qed.

Lemma X15_witness :
  defines_of "TRUE" (trace_twice inert_headers cfg_bare) = [[TInt 1]]
  ∧ defines_of "FALSE" (trace_twice inert_headers cfg_bare) = [[TInt 0]]
  ∧ defines_of "OKAY" (trace_twice inert_headers cfg_bare) = [[TInt 0]; [TInt 0]].
Proof.
  apply (X15_booleans_defined_once inert_headers cfg_bare).
  - intros h m Hm. exact Hm.
  - intros h m Hm. exact Hm.
Defined.

(** X16.  Read twice, the header declares posfmt, errfmt and errfmtnc
    twice, each time as an [extern] array of [char] and never as a
    definition, in a configuration that defines none of the words of
    lines 4-6 as a macro and with system headers that do not define them
    either.  (In the build [-Dposfmt=OKAY] the second reading meets
    posfmt after line 16 has defined OKAY, and line 4 is no declaration
    any more: Example [reread_posfmt_okay].) *)
Theorem X16_declared_twice sys (cfg : macro_table) :
  (∀ w h m, w ∈ declaration_words →
            defined w m = false → defined w (sys h m) = false) →
  plain_declarations cfg →
  decls (trace_twice sys cfg)
  = [extern_char_array "posfmt"; extern_char_array "errfmt";
     extern_char_array "errfmtnc";
     extern_char_array "posfmt"; extern_char_array "errfmt";
     extern_char_array "errfmtnc"]
  ∧ Forall (λ d, is_definition d = false) (decls (trace_twice sys cfg)).
Proof.
  intros Hsys Hplain.
  assert (Hfinal : plain_declarations (final_table sys cfg)).
  { unfold plain_declarations in *. rewrite Forall_forall in *.
    intros w Hw. rewrite final_table_split.
    apply (compat_includes_preserves sys (λ m, defined w m = false)).
    - intros h m. apply Hsys, Hw.
    - rewrite prelude_defined_other; [apply Hplain, Hw|].
      revert Hw. unfold declaration_words, prelude_macros.
      intros Hw Hin.
      repeat (apply elem_of_cons in Hw as [->|Hw];
              [revert Hin; compute_done|]).
      inversion Hw. }
  rewrite trace_twice_split, decls_app.
  rewrite (trace_decls sys cfg Hplain), (trace_decls sys _ Hfinal).
  split; [reflexivity | repeat constructor].
Qed.

Lemma X16_witness :
  plain_declarations cfg_configured
  ∧ decl_name <$> decls (trace_twice inert_headers cfg_configured)
    = ["posfmt"; "errfmt"; "errfmtnc"; "posfmt"; "errfmt"; "errfmtnc"].
Proof.
  split; [repeat constructor|].
  destruct (X16_declared_twice inert_headers cfg_configured) as [-> _].
  - intros w h m _ Hm. exact Hm.
  - repeat constructor.
  - reflexivity.
Defined.

(** Without that condition: [-Dposfmt=OKAY]. *)
Example reread_posfmt_okay :
  decl_name <$> decls (PP.trace inert_headers cfg_posfmt_okay)
  = ["OKAY"; "errfmt"; "errfmtnc"]
  ∧ decl_name <$> decls (trace_twice inert_headers cfg_posfmt_okay)
    = ["OKAY"; "errfmt"; "errfmtnc"; "errfmt"; "errfmtnc"]
  ∧ EText [TIdent "extern"; TIdent "char"; TInt 0;
           TOther "["; TOther "]"; TOther ";"]
    ∈ trace_twice inert_headers cfg_posfmt_okay.
Proof. split; [reflexivity|]. split; [reflexivity | compute_done]. Qed.
